(** * note-sequence-selector: the selection state machine of the custom element

    A shallow embedding of the [NoteSequenceSelector] custom element (both
    revisions of the component that the repository contains) together with the
    part of the DOM it talks to: the observed host attribute and the custom
    element reaction [attributeChangedCallback] that every write of that
    attribute invokes, the shadow tree nodes the class keeps references to,
    event listeners registered under an abort signal, dispatched events and
    the console. *)

From Stdlib Require Import String List Bool Arith ZArith QArith Qround Lia.
Import ListNotations.
Local Close Scope Q_scope.
Local Open Scope nat_scope.
Local Open Scope string_scope.
Local Open Scope list_scope.

Set Implicit Arguments.

(** ** JavaScript values *)

(** A value of a type [T | null] at run time: [null], [undefined] (what a
    property read of an absent key, or an array read out of range, gives), or
    a value of [T]. *)
Inductive Nullable (A : Type) : Type :=
| Null
| Undefined
| Val (a : A).
Arguments Null {A}.
Arguments Undefined {A}.
Arguments Val {A} & a.

(** [v !== null] *)
Definition notNull {A} (v : Nullable A) : bool :=
  match v with Null => false | _ => true end.

(** Truthiness of a [string | null | undefined]: only a non-empty string. *)
Definition truthyString (v : Nullable string) : bool :=
  match v with Val s => negb (s =? "") | _ => false end.

(** The [string | null] that the DOM hands to [attributeChangedCallback]. *)
Definition ofAttr (v : option string) : Nullable string :=
  match v with Some s => Val s | None => Null end.

(** [oldValue === newValue] on [string | null]. *)
Definition attrEq (a b : option string) : bool :=
  match a, b with
  | Some x, Some y => x =? y
  | None, None => true
  | _, _ => false
  end.

(** ** The catalog (module [@musodojo/music-theory-data])

    The data module is imported, not part of the repository: its three tables
    are parameters.  JavaScript objects keep their string keys in insertion
    order, which [Object.keys] and [Object.entries] expose, so a table is an
    association list. *)

Record NoteSequenceTheme : Type := {
  primaryName : string;
  names : list string;
  intervals : list string;
  type : list string;
  characteristics : list string;
  pattern : list nat;
  patternShort : list string;
  degrees : list string;
  exampleNotes : list string
}.

Record GroupMetadata : Type := {
  displayName : string;
  description : string
}.

(** What the stored theme and the looked-up value can be besides [null] and
    [undefined]: a record of the data module, or a member that the table, a
    plain object, inherits from [Object.prototype] (a function, or for
    ["__proto__"] the prototype itself): truthy, and without a
    [primaryName]. *)
Inductive ThemeValue : Type :=
| ThemeRecord (t : NoteSequenceTheme)
| InheritedMember (name : string).

Coercion ThemeRecord : NoteSequenceTheme >-> ThemeValue.

(** The property names of [Object.prototype]. *)
Definition objectPrototype : list string :=
  ["constructor"; "__defineGetter__"; "__defineSetter__"; "hasOwnProperty";
   "__lookupGetter__"; "__lookupSetter__"; "isPrototypeOf";
   "propertyIsEnumerable"; "toString"; "valueOf"; "__proto__";
   "toLocaleString"].

Definition inherited (k : string) : bool :=
  existsb (String.eqb k) objectPrototype.

Definition Table (A : Type) : Type := list (string * A).

(** [obj[k]]: the first (only) entry under [k]. *)
Fixpoint lookup {A} (k : string) (t : Table A) : option A :=
  match t with
  | [] => None
  | (k', v) :: t' => if k =? k' then Some v else lookup k t'
  end.

(** [Object.keys(obj)] *)
Definition keys {A} (t : Table A) : list string := map fst t.

Record Catalog : Type := {
  noteSequenceThemeGroupsMetadata : Table GroupMetadata;
  noteSequenceThemes : Table (Table NoteSequenceTheme);
  allNoteSequenceThemes : Table NoteSequenceTheme
}.

(** [allNoteSequenceThemes[key]] as a JavaScript value: the record that the
    table owns under the key; failing that the member of [Object.prototype]
    of that name; failing that [undefined]. *)
Definition themeOf (c : Catalog) (k : string) : Nullable ThemeValue :=
  match lookup k (allNoteSequenceThemes c) with
  | Some t => Val (ThemeRecord t)
  | None => if inherited k then Val (InheritedMember k) else Undefined
  end.

(** [Object.entries(noteSequenceThemes[groupKey])]: the entries of the group
    that the table owns under the key; failing that, none for the name of a
    member of [Object.prototype] (a function, or the prototype itself: no
    enumerable property of their own); failing that, a [TypeError], since the
    value is [undefined]. *)
Definition groupOf (c : Catalog) (k : string)
  : option (Table NoteSequenceTheme) :=
  match lookup k (noteSequenceThemes c) with
  | Some g => Some g
  | None => if inherited k then Some [] else None
  end.

(** What the element relies on in the data module: theme keys are non-empty
    strings, every group named by the metadata table has its themes, and the
    flattened table holds every grouped theme under its key. *)
Definition keysTruthy (c : Catalog) : Prop :=
  Forall (fun k => k <> "") (keys (allNoteSequenceThemes c)).

Definition groupsPresent (c : Catalog) : Prop :=
  Forall (fun gm => lookup (fst gm) (noteSequenceThemes c) <> None)
         (noteSequenceThemeGroupsMetadata c).

Definition flattened (c : Catalog) : Prop :=
  Forall (fun g =>
            Forall (fun kt =>
                      lookup (fst kt) (allNoteSequenceThemes c) = Some (snd kt))
                   (snd g))
         (noteSequenceThemes c).

(** ** The element and the DOM around it *)

(** A "more info" panel: a [div] of class [more-info-div]; [hidden] says
    whether its class list holds ["hidden"].  The panel of a group shows the
    group's description, the panel of an option what [#renderMoreInfo] makes
    of the theme (the markup text itself is not modelled, the data is kept). *)
Inductive PanelContent : Type :=
| GroupDescription (d : string)
| MoreInfo (t : NoteSequenceTheme).

Record Panel : Type := {
  content : PanelContent;
  hidden : bool
}.

(** A [div.note-sequence-option]: its heading, its panel, and the key and
    theme that its click listener closes over. *)
Record NoteSequenceOption : Type := {
  optionHeading : string;
  optionPanel : Panel;
  optionKey : string;
  optionTheme : NoteSequenceTheme
}.

(** A [div#group-wrapper]. *)
Record GroupWrapper : Type := {
  groupHeading : string;
  groupPanel : Panel;
  groupOptions : list NoteSequenceOption
}.

(** The listeners that [connectedCallback] registers, each under the signal
    of the abort controller of that attach. *)
Inductive ListenerTarget : Type :=
| ButtonClick
| CloseClick
| CheckboxChange.

Definition targetEqb (a b : ListenerTarget) : bool :=
  match a, b with
  | ButtonClick, ButtonClick | CloseClick, CloseClick
  | CheckboxChange, CheckboxChange => true
  | _, _ => false
  end.

Inductive ConsoleMessage : Type :=
| ConsoleError (m : string)
| ConsoleWarn (m : string).

Inductive Exn : Type :=
| TypeError
| InvalidStateError.

(** The dialog node: whether it has the [open] attribute and whether it is
    modal. *)
Record Dialog : Type := {
  isOpen : bool;
  isModal : bool
}.

(** The [detail] of a dispatched [note-sequence-selected] event. *)
Record NoteSequenceSelectedEventDetail : Type := {
  noteSequenceThemeKey : Nullable string;
  noteSequenceTheme : Nullable ThemeValue
}.

(** Calls recorded for the statements about what an operation does not
    re-run; no method reads them. *)
Inductive Call : Type :=
| SetterCall (k : Nullable string)
| PopulateCall.

(** One element instance.  A node field is [None] when [querySelector] found
    no such node in the shadow tree. *)
Record Element : Type := {
  (* the host element *)
  attribute : option string;      (* selected-note-sequence-theme-key *)
  isConnected : bool;             (* is the element in the document? *)
  (* the private fields of the class *)
  noteSequenceSelectorButton : option string;            (* its textContent *)
  noteSequenceSelectorDialog : option Dialog;
  noteSequencesContainer : option (list GroupWrapper);   (* its children *)
  toggleMoreInfoCheckbox : option bool;                  (* checked? *)
  abortController : option nat;
  selectedNoteSequenceThemeKey : Nullable string;
  selectedNoteSequenceTheme : Nullable ThemeValue;
  (* the rest of the shadow tree and of the page *)
  closeDialogButton : bool;       (* is #close-dialog-button there? *)
  listeners : list (ListenerTarget * nat);
  nextSignal : nat;
  dispatched : list NoteSequenceSelectedEventDetail;
  console : list ConsoleMessage;
  reported : list Exn;            (* exceptions reported, not propagated *)
  calls : list Call
}.

Definition setAttr v (e : Element) : Element :=
  {| attribute := v;
     isConnected := isConnected e;
     noteSequenceSelectorButton := noteSequenceSelectorButton e;
     noteSequenceSelectorDialog := noteSequenceSelectorDialog e;
     noteSequencesContainer := noteSequencesContainer e;
     toggleMoreInfoCheckbox := toggleMoreInfoCheckbox e;
     abortController := abortController e;
     selectedNoteSequenceThemeKey := selectedNoteSequenceThemeKey e;
     selectedNoteSequenceTheme := selectedNoteSequenceTheme e;
     closeDialogButton := closeDialogButton e;
     listeners := listeners e;
     nextSignal := nextSignal e;
     dispatched := dispatched e;
     console := console e;
     reported := reported e;
     calls := calls e |}.

Definition setConnected v (e : Element) : Element :=
  {| attribute := attribute e;
     isConnected := v;
     noteSequenceSelectorButton := noteSequenceSelectorButton e;
     noteSequenceSelectorDialog := noteSequenceSelectorDialog e;
     noteSequencesContainer := noteSequencesContainer e;
     toggleMoreInfoCheckbox := toggleMoreInfoCheckbox e;
     abortController := abortController e;
     selectedNoteSequenceThemeKey := selectedNoteSequenceThemeKey e;
     selectedNoteSequenceTheme := selectedNoteSequenceTheme e;
     closeDialogButton := closeDialogButton e;
     listeners := listeners e;
     nextSignal := nextSignal e;
     dispatched := dispatched e;
     console := console e;
     reported := reported e;
     calls := calls e |}.

Definition setButton v (e : Element) : Element :=
  {| attribute := attribute e;
     isConnected := isConnected e;
     noteSequenceSelectorButton := v;
     noteSequenceSelectorDialog := noteSequenceSelectorDialog e;
     noteSequencesContainer := noteSequencesContainer e;
     toggleMoreInfoCheckbox := toggleMoreInfoCheckbox e;
     abortController := abortController e;
     selectedNoteSequenceThemeKey := selectedNoteSequenceThemeKey e;
     selectedNoteSequenceTheme := selectedNoteSequenceTheme e;
     closeDialogButton := closeDialogButton e;
     listeners := listeners e;
     nextSignal := nextSignal e;
     dispatched := dispatched e;
     console := console e;
     reported := reported e;
     calls := calls e |}.

Definition setDialog v (e : Element) : Element :=
  {| attribute := attribute e;
     isConnected := isConnected e;
     noteSequenceSelectorButton := noteSequenceSelectorButton e;
     noteSequenceSelectorDialog := v;
     noteSequencesContainer := noteSequencesContainer e;
     toggleMoreInfoCheckbox := toggleMoreInfoCheckbox e;
     abortController := abortController e;
     selectedNoteSequenceThemeKey := selectedNoteSequenceThemeKey e;
     selectedNoteSequenceTheme := selectedNoteSequenceTheme e;
     closeDialogButton := closeDialogButton e;
     listeners := listeners e;
     nextSignal := nextSignal e;
     dispatched := dispatched e;
     console := console e;
     reported := reported e;
     calls := calls e |}.

Definition setContainer v (e : Element) : Element :=
  {| attribute := attribute e;
     isConnected := isConnected e;
     noteSequenceSelectorButton := noteSequenceSelectorButton e;
     noteSequenceSelectorDialog := noteSequenceSelectorDialog e;
     noteSequencesContainer := v;
     toggleMoreInfoCheckbox := toggleMoreInfoCheckbox e;
     abortController := abortController e;
     selectedNoteSequenceThemeKey := selectedNoteSequenceThemeKey e;
     selectedNoteSequenceTheme := selectedNoteSequenceTheme e;
     closeDialogButton := closeDialogButton e;
     listeners := listeners e;
     nextSignal := nextSignal e;
     dispatched := dispatched e;
     console := console e;
     reported := reported e;
     calls := calls e |}.

Definition setCheckbox v (e : Element) : Element :=
  {| attribute := attribute e;
     isConnected := isConnected e;
     noteSequenceSelectorButton := noteSequenceSelectorButton e;
     noteSequenceSelectorDialog := noteSequenceSelectorDialog e;
     noteSequencesContainer := noteSequencesContainer e;
     toggleMoreInfoCheckbox := v;
     abortController := abortController e;
     selectedNoteSequenceThemeKey := selectedNoteSequenceThemeKey e;
     selectedNoteSequenceTheme := selectedNoteSequenceTheme e;
     closeDialogButton := closeDialogButton e;
     listeners := listeners e;
     nextSignal := nextSignal e;
     dispatched := dispatched e;
     console := console e;
     reported := reported e;
     calls := calls e |}.

(** [this.#abortController = new AbortController()]: a fresh signal. *)
Definition newAbortController (e : Element) : Element :=
  {| attribute := attribute e;
     isConnected := isConnected e;
     noteSequenceSelectorButton := noteSequenceSelectorButton e;
     noteSequenceSelectorDialog := noteSequenceSelectorDialog e;
     noteSequencesContainer := noteSequencesContainer e;
     toggleMoreInfoCheckbox := toggleMoreInfoCheckbox e;
     abortController := Some (nextSignal e);
     selectedNoteSequenceThemeKey := selectedNoteSequenceThemeKey e;
     selectedNoteSequenceTheme := selectedNoteSequenceTheme e;
     closeDialogButton := closeDialogButton e;
     listeners := listeners e;
     nextSignal := S (nextSignal e);
     dispatched := dispatched e;
     console := console e;
     reported := reported e;
     calls := calls e |}.

Definition setKey v (e : Element) : Element :=
  {| attribute := attribute e;
     isConnected := isConnected e;
     noteSequenceSelectorButton := noteSequenceSelectorButton e;
     noteSequenceSelectorDialog := noteSequenceSelectorDialog e;
     noteSequencesContainer := noteSequencesContainer e;
     toggleMoreInfoCheckbox := toggleMoreInfoCheckbox e;
     abortController := abortController e;
     selectedNoteSequenceThemeKey := v;
     selectedNoteSequenceTheme := selectedNoteSequenceTheme e;
     closeDialogButton := closeDialogButton e;
     listeners := listeners e;
     nextSignal := nextSignal e;
     dispatched := dispatched e;
     console := console e;
     reported := reported e;
     calls := calls e |}.

Definition setTheme v (e : Element) : Element :=
  {| attribute := attribute e;
     isConnected := isConnected e;
     noteSequenceSelectorButton := noteSequenceSelectorButton e;
     noteSequenceSelectorDialog := noteSequenceSelectorDialog e;
     noteSequencesContainer := noteSequencesContainer e;
     toggleMoreInfoCheckbox := toggleMoreInfoCheckbox e;
     abortController := abortController e;
     selectedNoteSequenceThemeKey := selectedNoteSequenceThemeKey e;
     selectedNoteSequenceTheme := v;
     closeDialogButton := closeDialogButton e;
     listeners := listeners e;
     nextSignal := nextSignal e;
     dispatched := dispatched e;
     console := console e;
     reported := reported e;
     calls := calls e |}.

Definition setListeners v (e : Element) : Element :=
  {| attribute := attribute e;
     isConnected := isConnected e;
     noteSequenceSelectorButton := noteSequenceSelectorButton e;
     noteSequenceSelectorDialog := noteSequenceSelectorDialog e;
     noteSequencesContainer := noteSequencesContainer e;
     toggleMoreInfoCheckbox := toggleMoreInfoCheckbox e;
     abortController := abortController e;
     selectedNoteSequenceThemeKey := selectedNoteSequenceThemeKey e;
     selectedNoteSequenceTheme := selectedNoteSequenceTheme e;
     closeDialogButton := closeDialogButton e;
     listeners := v;
     nextSignal := nextSignal e;
     dispatched := dispatched e;
     console := console e;
     reported := reported e;
     calls := calls e |}.

Definition pushDispatched d (e : Element) : Element :=
  {| attribute := attribute e;
     isConnected := isConnected e;
     noteSequenceSelectorButton := noteSequenceSelectorButton e;
     noteSequenceSelectorDialog := noteSequenceSelectorDialog e;
     noteSequencesContainer := noteSequencesContainer e;
     toggleMoreInfoCheckbox := toggleMoreInfoCheckbox e;
     abortController := abortController e;
     selectedNoteSequenceThemeKey := selectedNoteSequenceThemeKey e;
     selectedNoteSequenceTheme := selectedNoteSequenceTheme e;
     closeDialogButton := closeDialogButton e;
     listeners := listeners e;
     nextSignal := nextSignal e;
     dispatched := dispatched e ++ [d];
     console := console e;
     reported := reported e;
     calls := calls e |}.

Definition pushConsole m (e : Element) : Element :=
  {| attribute := attribute e;
     isConnected := isConnected e;
     noteSequenceSelectorButton := noteSequenceSelectorButton e;
     noteSequenceSelectorDialog := noteSequenceSelectorDialog e;
     noteSequencesContainer := noteSequencesContainer e;
     toggleMoreInfoCheckbox := toggleMoreInfoCheckbox e;
     abortController := abortController e;
     selectedNoteSequenceThemeKey := selectedNoteSequenceThemeKey e;
     selectedNoteSequenceTheme := selectedNoteSequenceTheme e;
     closeDialogButton := closeDialogButton e;
     listeners := listeners e;
     nextSignal := nextSignal e;
     dispatched := dispatched e;
     console := console e ++ [m];
     reported := reported e;
     calls := calls e |}.

Definition pushReported x (e : Element) : Element :=
  {| attribute := attribute e;
     isConnected := isConnected e;
     noteSequenceSelectorButton := noteSequenceSelectorButton e;
     noteSequenceSelectorDialog := noteSequenceSelectorDialog e;
     noteSequencesContainer := noteSequencesContainer e;
     toggleMoreInfoCheckbox := toggleMoreInfoCheckbox e;
     abortController := abortController e;
     selectedNoteSequenceThemeKey := selectedNoteSequenceThemeKey e;
     selectedNoteSequenceTheme := selectedNoteSequenceTheme e;
     closeDialogButton := closeDialogButton e;
     listeners := listeners e;
     nextSignal := nextSignal e;
     dispatched := dispatched e;
     console := console e;
     reported := reported e ++ [x];
     calls := calls e |}.

Definition pushCall c (e : Element) : Element :=
  {| attribute := attribute e;
     isConnected := isConnected e;
     noteSequenceSelectorButton := noteSequenceSelectorButton e;
     noteSequenceSelectorDialog := noteSequenceSelectorDialog e;
     noteSequencesContainer := noteSequencesContainer e;
     toggleMoreInfoCheckbox := toggleMoreInfoCheckbox e;
     abortController := abortController e;
     selectedNoteSequenceThemeKey := selectedNoteSequenceThemeKey e;
     selectedNoteSequenceTheme := selectedNoteSequenceTheme e;
     closeDialogButton := closeDialogButton e;
     listeners := listeners e;
     nextSignal := nextSignal e;
     dispatched := dispatched e;
     console := console e;
     reported := reported e;
     calls := calls e ++ [c] |}.

(** ** Computations

    A method runs on the element and completes normally, throws, or (only in
    the model) runs out of the fuel that bounds the nesting of custom element
    reactions.  The element a computation leaves behind is kept in every case:
    what a method wrote before it threw stays written. *)
Inductive Completion (A : Type) : Type :=
| Normal (a : A)
| Throw (x : Exn)
| OutOfFuel.
Arguments OutOfFuel {A}.
Arguments Throw {A} x.

Definition M (A : Type) : Type := Element -> Completion A * Element.

Definition ret {A} (a : A) : M A := fun e => (Normal a, e).

Definition bind {A B} (m : M A) (f : A -> M B) : M B :=
  fun e =>
    match m e with
    | (Normal a, e') => f a e'
    | (Throw x, e') => (Throw x, e')
    | (OutOfFuel, e') => (OutOfFuel, e')
    end.

Definition throw {A} (x : Exn) : M A := fun e => (Throw x, e).

Definition modify (f : Element -> Element) : M unit := fun e => (Normal tt, f e).

Declare Scope js_scope.
Delimit Scope js_scope with js.
Notation "m1 ;; m2" := (bind m1 (fun _ => m2))
  (at level 61, right associativity) : js_scope.
Local Open Scope js_scope.

(** [Array.prototype.forEach] with a callback that may throw. *)
Fixpoint forEach {A} (f : A -> M unit) (l : list A) : M unit :=
  match l with
  | [] => ret tt
  | x :: l' => f x ;; forEach f l'
  end.

(** The element after a computation, and how it completed. *)
Definition exec {A} (m : M A) (e : Element) : Element := snd (m e).
Definition completion {A} (m : M A) (e : Element) : Completion A := fst (m e).

(** ** The DOM operations the class uses *)

Definition observedAttribute : string := "selected-note-sequence-theme-key".

(** The element's [attributeChangedCallback(name, oldValue, newValue)], as the
    DOM sees it. *)
Definition Reaction : Type := string -> option string -> option string -> M unit.

(** A custom element reaction: the callback is invoked when the DOM operation
    that queued it returns, and an exception it throws is reported instead of
    reaching the caller of that operation. *)
Definition react (cb : Reaction) (old new : option string) : M unit :=
  fun e =>
    match cb observedAttribute old new e with
    | (Throw x, e') => (Normal tt, pushReported x e')
    | r => r
    end.

(** [setAttribute("selected-note-sequence-theme-key", v)]: the reaction is
    queued whether or not the value changes. *)
Definition setAttribute (cb : Reaction) (v : string) : M unit :=
  fun e => react cb (attribute e) (Some v) (setAttr (Some v) e).

(** [removeAttribute("selected-note-sequence-theme-key")]: nothing happens
    when the attribute is absent. *)
Definition removeAttribute (cb : Reaction) : M unit :=
  fun e =>
    match attribute e with
    | None => (Normal tt, e)
    | Some old => react cb (Some old) None (setAttr None e)
    end.

(** [target.addEventListener(type, listener, { signal })] *)
Definition addEventListener (t : ListenerTarget) (signal : nat) : M unit :=
  modify (fun e => setListeners (listeners e ++ [(t, signal)]) e).

(** [controller.abort()]: every listener registered under the signal goes. *)
Definition abort (signal : nat) : M unit :=
  modify (fun e =>
            setListeners
              (filter (fun l => negb (snd l =? signal)%nat) (listeners e)) e).

Definition dispatchEvent (d : NoteSequenceSelectedEventDetail) : M unit :=
  modify (pushDispatched d).

Definition consoleError (m : string) : M unit := modify (pushConsole (ConsoleError m)).
Definition consoleWarn (m : string) : M unit := modify (pushConsole (ConsoleWarn m)).

(** [dialog!.showModal()] through a reference that may be [null].  On the
    node the call returns at once when the dialog is open and modal, throws
    [InvalidStateError] when it is open otherwise or when it is not in the
    document, and else opens it as a modal. *)
Definition showModal : M unit :=
  fun e =>
    match noteSequenceSelectorDialog e with
    | None => (Throw TypeError, e)
    | Some d =>
        if isOpen d && isModal d then (Normal tt, e)
        else if isOpen d || negb (isConnected e)
             then (Throw InvalidStateError, e)
             else (Normal tt,
                   setDialog (Some {| isOpen := true; isModal := true |}) e)
    end.

(** The dialog after [close()]: nothing happens to one that is not open. *)
Definition closeDialog (d : Dialog) : Dialog :=
  if isOpen d then {| isOpen := false; isModal := false |} else d.

(** [dialog!.close()] through a reference that may be [null]. *)
Definition close : M unit :=
  fun e =>
    match noteSequenceSelectorDialog e with
    | None => (Throw TypeError, e)
    | Some d => (Normal tt, setDialog (Some (closeDialog d)) e)
    end.

(** The element is inserted into the document; it is removed from it, which
    leaves the [open] attribute of the dialog and ends its being modal. *)
Definition insertedIntoDocument : M unit := modify (setConnected true).

Definition removedFromDocument : M unit :=
  modify (fun e =>
            setDialog (option_map (fun d => {| isOpen := isOpen d;
                                               isModal := false |})
                                  (noteSequenceSelectorDialog e))
                      (setConnected false e)).

(** An event listener runs with its exceptions reported. *)
Definition listener (m : M unit) : M unit :=
  fun e =>
    match m e with
    | (Throw x, e') => (Normal tt, pushReported x e')
    | r => r
    end.

(** How many listeners are registered on a target. *)
Definition bound (t : ListenerTarget) (e : Element) : list (ListenerTarget * nat) :=
  filter (fun l => targetEqb (fst l) t) (listeners e).

(** ** The methods that the two revisions share

    [src/unnamed/part_000] (the earlier revision) and [src/unnamed/part_001]
    have these methods word for word, up to comments. *)
Module Selector.
Section Methods.

Variable c : Catalog.

(** The element after [constructor()]: the template always holds the five
    nodes, nothing is selected, the dialog is closed and the box unchecked. *)
Definition constructed : Element :=
  {| attribute := None;
     isConnected := false;
     noteSequenceSelectorButton := Some "Select Sequence";
     noteSequenceSelectorDialog := Some {| isOpen := false; isModal := false |};
     noteSequencesContainer := Some [];
     toggleMoreInfoCheckbox := Some false;
     abortController := None;
     selectedNoteSequenceThemeKey := Null;
     selectedNoteSequenceTheme := Null;
     closeDialogButton := true;
     listeners := [];
     nextSignal := 0;
     dispatched := [];
     console := [];
     reported := [];
     calls := [] |}.

(** [#updateNoteSequenceSelectorButtonText()].  A truthy theme that is not
    a record has no [primaryName]: the read gives [undefined], and
    [textContent] set to [undefined] becomes the empty string. *)
Definition updateNoteSequenceSelectorButtonText : M unit :=
  fun e =>
    match noteSequenceSelectorButton e with
    | None => (Throw TypeError, e)
    | Some _ =>
        (Normal tt,
         setButton (Some (match selectedNoteSequenceTheme e with
                          | Val (ThemeRecord t) => primaryName t
                          | Val (InheritedMember _) => ""
                          | _ => "Select Sequence"
                          end)) e)
    end.

(** [#updateSelectedNoteSequenceAttribute()] *)
Definition updateSelectedNoteSequenceAttribute (cb : Reaction) : M unit :=
  fun e =>
    match selectedNoteSequenceThemeKey e with
    | Val k => if negb (k =? "") then setAttribute cb k e else removeAttribute cb e
    | _ => removeAttribute cb e
    end.

(** [get selectedNoteSequenceThemeKey()] and [get selectedNoteSequenceTheme()] *)
Definition get_selectedNoteSequenceThemeKey (e : Element) : Nullable string :=
  selectedNoteSequenceThemeKey e.

Definition get_selectedNoteSequenceTheme (e : Element) : Nullable ThemeValue :=
  selectedNoteSequenceTheme e.

(** [set selectedNoteSequenceThemeKey(newNoteSequenceThemeKey)] *)
Definition set_selectedNoteSequenceThemeKey (cb : Reaction)
    (newNoteSequenceThemeKey : Nullable string) : M unit :=
  modify (pushCall (SetterCall newNoteSequenceThemeKey)) ;;
  modify (setKey newNoteSequenceThemeKey) ;;
  modify (setTheme (match newNoteSequenceThemeKey with
                    | Val k => if negb (k =? "") then themeOf c k else Null
                    | _ => Null
                    end)) ;;
  updateNoteSequenceSelectorButtonText ;;
  updateSelectedNoteSequenceAttribute cb.

(** The nodes that [#populateNoteSequences()] creates. *)
Definition hiddenPanel (x : PanelContent) : Panel :=
  {| content := x; hidden := true |}.

Definition noteSequenceDiv (kt : string * NoteSequenceTheme) : NoteSequenceOption :=
  {| optionHeading := primaryName (snd kt);
     optionPanel := hiddenPanel (MoreInfo (snd kt));
     optionKey := fst kt;
     optionTheme := snd kt |}.

Definition groupDiv (groupMetadata : GroupMetadata)
    (currentGroup : Table NoteSequenceTheme) : GroupWrapper :=
  {| groupHeading := displayName groupMetadata;
     groupPanel := hiddenPanel (GroupDescription (description groupMetadata));
     groupOptions := map noteSequenceDiv currentGroup |}.

Definition appendChild (g : GroupWrapper) : M unit :=
  fun e =>
    match noteSequencesContainer e with
    | None => (Throw TypeError, e)
    | Some gs => (Normal tt, setContainer (Some (gs ++ [g])) e)
    end.

(** [#populateNoteSequences()]: [Object.entries] of [undefined], for a group
    that the themes table lacks, throws before the group's block is
    appended. *)
Definition populateNoteSequences : M unit :=
  modify (pushCall PopulateCall) ;;
  fun e =>
    match noteSequencesContainer e with
    | None => (Normal tt, e)
    | Some _ =>
        (modify (setContainer (Some [])) ;;
         forEach (fun gm : string * GroupMetadata =>
                    match groupOf c (fst gm) with
                    | None => throw TypeError
                    | Some currentGroup => appendChild (groupDiv (snd gm) currentGroup)
                    end)
                 (noteSequenceThemeGroupsMetadata c)) e
    end.

(** [querySelectorAll(".more-info-div")] in document order. *)
Definition moreInfoElements (e : Element) : list Panel :=
  match noteSequencesContainer e with
  | None => []
  | Some gs =>
      flat_map (fun g => groupPanel g :: map optionPanel (groupOptions g)) gs
  end.

(** [el.classList.toggle("hidden", force)] on every panel. *)
Definition toggleHidden (force : bool) (p : Panel) : Panel :=
  {| content := content p; hidden := force |}.

Definition toggleHiddenOption (force : bool) (o : NoteSequenceOption) : NoteSequenceOption :=
  {| optionHeading := optionHeading o;
     optionPanel := toggleHidden force (optionPanel o);
     optionKey := optionKey o;
     optionTheme := optionTheme o |}.

Definition toggleHiddenGroup (force : bool) (g : GroupWrapper) : GroupWrapper :=
  {| groupHeading := groupHeading g;
     groupPanel := toggleHidden force (groupPanel g);
     groupOptions := map (toggleHiddenOption force) (groupOptions g) |}.

(** [#updateMoreInfoVisibility()]: the checkbox is read once per panel, so a
    missing checkbox throws only when there is a panel. *)
Definition updateMoreInfoVisibility : M unit :=
  fun e =>
    match moreInfoElements e, toggleMoreInfoCheckbox e with
    | [], _ => (Normal tt, e)
    | _ :: _, None => (Throw TypeError, e)
    | _ :: _, Some checked =>
        (Normal tt,
         setContainer (option_map (map (toggleHiddenGroup (negb checked)))
                                  (noteSequencesContainer e)) e)
    end.

(** [connectedCallback()] *)
Definition connectedCallback (cb : Reaction) : M unit :=
  fun e0 =>
    let signal := nextSignal e0 in
    let e := newAbortController e0 in
    match noteSequenceSelectorButton e, noteSequenceSelectorDialog e,
          noteSequencesContainer e, toggleMoreInfoCheckbox e with
    | Some _, Some _, Some _, Some _ =>
        (addEventListener ButtonClick signal ;;
         (if closeDialogButton e
          then addEventListener CloseClick signal
          else throw TypeError) ;;
         addEventListener CheckboxChange signal ;;
         populateNoteSequences ;;
         updateNoteSequenceSelectorButtonText ;;
         updateSelectedNoteSequenceAttribute cb) e
    | _, _, _, _ =>
        consoleError "Failed to find necessary elements in the shadow DOM" e
    end.

(** [disconnectedCallback()] *)
Definition disconnectedCallback : M unit :=
  fun e =>
    match abortController e with
    | None => (Normal tt, e)
    | Some signal => abort signal e
    end.

(** The user checks or unchecks the box: the box changes, then the bound
    [change] listeners run. *)
Definition changeCheckbox (checked : bool) : M unit :=
  fun e =>
    match toggleMoreInfoCheckbox e with
    | None => (Normal tt, e)
    | Some _ =>
        (modify (setCheckbox (Some checked)) ;;
         forEach (fun _ => listener updateMoreInfoVisibility)
                 (bound CheckboxChange e)) e
    end.

(** The user clicks the trigger button or the close button. *)
Definition clickButton : M unit :=
  fun e => forEach (fun _ => listener showModal) (bound ButtonClick e) e.

Definition clickClose : M unit :=
  fun e => forEach (fun _ => listener close) (bound CloseClick e) e.

(** The option a click lands on: child [o] of group [g] of the container. *)
Definition optionAt (g o : nat) (e : Element) : option NoteSequenceOption :=
  match noteSequencesContainer e with
  | None => None
  | Some gs =>
      match nth_error gs g with
      | None => None
      | Some gw => nth_error (groupOptions gw) o
      end
  end.

End Methods.
End Selector.

(** ** Binary64 values below one *)

(** A double in [0, 1) as a rational: a numerator of at most 53 bits over a
    power of two that is at most [2 ^ 1074]. *)
Definition binary64 (x : Q) : bool :=
  ((0 <=? Qnum x) && (Qnum x <? 2 ^ 53)
   && (Zpos (Qden x) =? 2 ^ Z.log2 (Zpos (Qden x)))
   && (Z.log2 (Zpos (Qden x)) <=? 1074))%Z.

(** [M / 2 ^ d] rounded to the nearest integer, ties to even. *)
Definition roundHalfEven (M d : Z) : Z :=
  if (d <=? 0)%Z then M
  else
    let q := (M / 2 ^ d)%Z in
    let r := (M mod 2 ^ d)%Z in
    let h := (2 ^ (d - 1))%Z in
    if (r <? h)%Z then q
    else if (h <? r)%Z then (q + 1)%Z
    else if Z.even q then q else (q + 1)%Z.

(** What the page and the user can do to an element. *)
Inductive Op : Type :=
| HostSetAttribute (v : string)     (* el.setAttribute(observed, v), or markup *)
| HostRemoveAttribute               (* el.removeAttribute(observed) *)
| AssignKey (k : Nullable string)   (* el.selectedNoteSequenceThemeKey = k *)
| CallSetRandom (random : Q)        (* el.setRandomNoteSequence() *)
| Connect                           (* the element is inserted *)
| Disconnect                        (* the element is removed *)
| ClickButton
| ClickClose
| ChangeCheckbox (checked : bool)
| ClickOption (g o : nat).

(** ** The later revision, [src/unnamed/part_001] *)
Module Rev1.
Import Selector.
Section Methods.

Variable c : Catalog.

(** [#dispatchNoteSequenceSelectedEvent()] *)
Definition dispatchNoteSequenceSelectedEvent : M unit :=
  fun e =>
    if notNull (selectedNoteSequenceThemeKey e)
       && notNull (selectedNoteSequenceTheme e)
    then dispatchEvent
           {| noteSequenceThemeKey := selectedNoteSequenceThemeKey e;
              noteSequenceTheme := selectedNoteSequenceTheme e |} e
    else consoleWarn
           "attempted to dispatch note-sequence-selected event with null data" e.

(** [attributeChangedCallback(name, oldValue, newValue)].  The setter writes
    the attribute, which invokes this callback again: [fuel] bounds that
    nesting. *)
Fixpoint attributeChangedCallback (fuel : nat) (name : string)
    (oldValue newValue : option string) : M unit :=
  match fuel with
  | 0 => fun e => (OutOfFuel, e)
  | S fuel' =>
      if attrEq oldValue newValue then ret tt
      else if name =? observedAttribute then
        set_selectedNoteSequenceThemeKey c (attributeChangedCallback fuel')
                                         (ofAttr newValue) ;;
        dispatchNoteSequenceSelectedEvent
      else ret tt
  end.

(** The click listener that [#populateNoteSequences()] puts on an option. *)
Definition optionClick (cb : Reaction) (o : NoteSequenceOption) : M unit :=
  modify (setKey (Val (optionKey o))) ;;
  modify (setTheme (Val (optionTheme o))) ;;
  updateNoteSequenceSelectorButtonText ;;
  updateSelectedNoteSequenceAttribute cb ;;
  close.

(** [Math.floor(Math.random() * n)] for [Math.random()] giving the binary64
    value [random], written as its numerator over a power of two.  The product
    of two doubles is the exact product rounded to 53 significant bits, ties
    to even: [M] is the numerator of the exact product, [d] the number of
    bits to drop, and the rounded value is [roundHalfEven M d * 2 ^ (d - k)].
    (An array length is below [2 ^ 32], so [n] is itself a double, and the
    product of a value below one by it cannot overflow.) *)
Definition randomIndex (random : Q) (n : nat) : nat :=
  let M := (Qnum random * Z.of_nat n)%Z in
  let k := Z.log2 (Zpos (Qden random)) in
  let d := Z.max 0 (Z.log2 M + 1 - 53) in
  Z.to_nat (Z.shiftl (roundHalfEven M d) (d - k)).

(** [setRandomNoteSequence()]; an index past the end reads [undefined]. *)
Definition setRandomNoteSequence (cb : Reaction) (random : Q) : M unit :=
  let allNoteSequenceThemesKeys := keys (allNoteSequenceThemes c) in
  set_selectedNoteSequenceThemeKey c cb
    (match nth_error allNoteSequenceThemesKeys
                     (randomIndex random (length allNoteSequenceThemesKeys)) with
     | Some k => Val k
     | None => Undefined
     end).

(** One operation on the element, the reactions it sets off included. *)
Definition run (fuel : nat) (op : Op) : M unit :=
  let cb := attributeChangedCallback fuel in
  match op with
  | HostSetAttribute v => setAttribute cb v
  | HostRemoveAttribute => removeAttribute cb
  | AssignKey k => set_selectedNoteSequenceThemeKey c cb k
  | CallSetRandom random => setRandomNoteSequence cb random
  | Connect => insertedIntoDocument ;; listener (connectedCallback c cb)
  | Disconnect => removedFromDocument ;; listener disconnectedCallback
  | ClickButton => clickButton
  | ClickClose => clickClose
  | ChangeCheckbox checked => changeCheckbox checked
  | ClickOption g o =>
      fun e =>
        match optionAt g o e with
        | None => (Normal tt, e)
        | Some opt => listener (optionClick cb opt) e
        end
  end.

End Methods.
End Rev1.

(** ** The earlier revision, [src/unnamed/part_000] *)
Module Rev0.
Import Selector.
Section Methods.

Variable c : Catalog.

(** [#dispatchNoteSequenceSelectedEvent()]: no check of the fields. *)
Definition dispatchNoteSequenceSelectedEvent : M unit :=
  fun e =>
    dispatchEvent
      {| noteSequenceThemeKey := selectedNoteSequenceThemeKey e;
         noteSequenceTheme := selectedNoteSequenceTheme e |} e.

(** [attributeChangedCallback(name, oldValue, newValue)]: no dispatch. *)
Fixpoint attributeChangedCallback (fuel : nat) (name : string)
    (oldValue newValue : option string) : M unit :=
  match fuel with
  | 0 => fun e => (OutOfFuel, e)
  | S fuel' =>
      if attrEq oldValue newValue then ret tt
      else if name =? observedAttribute then
        set_selectedNoteSequenceThemeKey c (attributeChangedCallback fuel')
                                         (ofAttr newValue)
      else ret tt
  end.

(** The click listener of an option: it dispatches the event itself. *)
Definition optionClick (cb : Reaction) (o : NoteSequenceOption) : M unit :=
  modify (setKey (Val (optionKey o))) ;;
  modify (setTheme (Val (optionTheme o))) ;;
  updateNoteSequenceSelectorButtonText ;;
  updateSelectedNoteSequenceAttribute cb ;;
  dispatchNoteSequenceSelectedEvent ;;
  close.

(** One operation on the element; this revision has no random selection. *)
Definition run (fuel : nat) (op : Op) : M unit :=
  let cb := attributeChangedCallback fuel in
  match op with
  | HostSetAttribute v => setAttribute cb v
  | HostRemoveAttribute => removeAttribute cb
  | AssignKey k => set_selectedNoteSequenceThemeKey c cb k
  | CallSetRandom _ => throw TypeError
  | Connect => insertedIntoDocument ;; listener (connectedCallback c cb)
  | Disconnect => removedFromDocument ;; listener disconnectedCallback
  | ClickButton => clickButton
  | ClickClose => clickClose
  | ChangeCheckbox checked => changeCheckbox checked
  | ClickOption g o =>
      fun e =>
        match optionAt g o e with
        | None => (Normal tt, e)
        | Some opt => listener (optionClick cb opt) e
        end
  end.

End Methods.
End Rev0.

(** ** A small catalog

    The group ["diatonic"] with three of its modes, enough to run the element
    on. *)
Definition ionian : NoteSequenceTheme :=
  {| primaryName := "Ionian";
     names := ["Ionian"; "Major"];
     intervals := ["1"; "2"; "3"; "4"; "5"; "6"; "7"];
     type := ["mode"];
     characteristics := ["bright"];
     pattern := [2; 2; 1; 2; 2; 2; 1];
     patternShort := ["W"; "W"; "H"; "W"; "W"; "W"; "H"];
     degrees := ["1"; "2"; "3"; "4"; "5"; "6"; "7"];
     exampleNotes := ["C"; "D"; "E"; "F"; "G"; "A"; "B"] |}.

Definition dorian : NoteSequenceTheme :=
  {| primaryName := "Dorian";
     names := ["Dorian"];
     intervals := ["1"; "2"; "b3"; "4"; "5"; "6"; "b7"];
     type := ["mode"];
     characteristics := ["minor"];
     pattern := [2; 1; 2; 2; 2; 1; 2];
     patternShort := ["W"; "H"; "W"; "W"; "W"; "H"; "W"];
     degrees := ["1"; "2"; "b3"; "4"; "5"; "6"; "b7"];
     exampleNotes := ["D"; "E"; "F"; "G"; "A"; "B"; "C"] |}.

Definition phrygian : NoteSequenceTheme :=
  {| primaryName := "Phrygian";
     names := ["Phrygian"];
     intervals := ["1"; "b2"; "b3"; "4"; "5"; "b6"; "b7"];
     type := ["mode"];
     characteristics := ["dark"];
     pattern := [1; 2; 2; 2; 1; 2; 2];
     patternShort := ["H"; "W"; "W"; "W"; "H"; "W"; "W"];
     degrees := ["1"; "b2"; "b3"; "4"; "5"; "b6"; "b7"];
     exampleNotes := ["E"; "F"; "G"; "A"; "B"; "C"; "D"] |}.

Definition diatonic : Table NoteSequenceTheme :=
  [("ionian", ionian); ("dorian", dorian); ("phrygian", phrygian)].

Definition demo : Catalog :=
  {| noteSequenceThemeGroupsMetadata :=
       [("diatonic", {| displayName := "Diatonic Modes";
                        description := "The modes of the major scale" |})];
     noteSequenceThemes := [("diatonic", diatonic)];
     allNoteSequenceThemes := diatonic |}.

(** ** What one call of the setter leaves behind (later revision)

    The setter and the reaction call each other through the attribute; these
    are the elements that the nest of calls ends in, written out flat. *)
Section Outcomes.

Variable c : Catalog.

Definition labelOf (th : Nullable ThemeValue) : string :=
  match th with
  | Val (ThemeRecord t) => primaryName t
  | Val (InheritedMember _) => ""
  | _ => "Select Sequence"
  end.

(** The fields and the label written by the click listener of an option, and
    by one run of the setter's body. *)
Definition written (k : Nullable string) (th : Nullable ThemeValue)
    (e : Element) : Element :=
  setButton (Some (labelOf th)) (setTheme th (setKey k e)).

Definition stored (k : Nullable string) (th : Nullable ThemeValue)
    (e : Element) : Element :=
  written k th (pushCall (SetterCall k) e).

Definition detailOf (s : string) : NoteSequenceSelectedEventDetail :=
  {| noteSequenceThemeKey := Val s; noteSequenceTheme := themeOf c s |}.

Definition nullDataWarning : ConsoleMessage :=
  ConsoleWarn "attempted to dispatch note-sequence-selected event with null data".

(** The record that the setter resolves a key to. *)
Definition resolved (k : Nullable string) : Nullable ThemeValue :=
  match k with
  | Val s => if negb (s =? "") then themeOf c s else Null
  | _ => Null
  end.

(** After the setter ran on the string [s] that the attribute already holds. *)
Definition reselectOutcome (s : string) (e : Element) : Element :=
  setAttr (Some s) (stored (Val s) (themeOf c s) e).

(** After the setter ran on a non-empty string [s]. *)
Definition selectOutcome (s : string) (e : Element) : Element :=
  if attrEq (attribute e) (Some s) then reselectOutcome s e
  else pushDispatched (detailOf s) (reselectOutcome s (reselectOutcome s e)).

(** After the setter ran on [null], [undefined] or the empty string. *)
Definition clearOutcome (k : Nullable string) (e : Element) : Element :=
  let e1 := stored k Null e in
  match attribute e with
  | None => e1
  | Some _ => pushConsole nullDataWarning (stored Null Null (setAttr None e1))
  end.

(** After the page wrote [v] to the attribute. *)
Definition hostSetOutcome (v : string) (e : Element) : Element :=
  if attrEq (attribute e) (Some v) then e
  else if v =? "" then
    pushConsole nullDataWarning (clearOutcome (Val "") (setAttr (Some "") e))
  else pushDispatched (detailOf v) (reselectOutcome v (setAttr (Some v) e)).

(** After the page removed the attribute. *)
Definition hostRemoveOutcome (e : Element) : Element :=
  match attribute e with
  | None => e
  | Some _ => pushConsole nullDataWarning (stored Null Null (setAttr None e))
  end.

(** After a click on an option whose key is a non-empty string. *)
Definition clickOutcome (o : NoteSequenceOption) (e : Element) : Element :=
  let k := optionKey o in
  let e1 := setAttr (Some k) (written (Val k) (Val (optionTheme o)) e) in
  setDialog (option_map closeDialog (noteSequenceSelectorDialog e))
    (if attrEq (attribute e) (Some k) then e1
     else pushDispatched (detailOf k) (reselectOutcome k e1)).

(** ** Elements that the operations can reach *)

(** The attribute that [#updateSelectedNoteSequenceAttribute()] leaves for a
    stored key. *)
Definition reflected (k : Nullable string) : option string :=
  match k with
  | Val s => if s =? "" then None else Some s
  | _ => None
  end.

(** Every option in the list carries a key of the flattened table and that
    table's record for it. *)
Definition optionsFromCatalog (e : Element) : Prop :=
  match noteSequencesContainer e with
  | None => True
  | Some gs =>
      Forall (fun g =>
                Forall (fun o =>
                          lookup (optionKey o) (allNoteSequenceThemes c)
                          = Some (optionTheme o))
                       (groupOptions g)) gs
  end.

(** What holds of an element between two operations: the nodes that the
    methods dereference are there, the attribute reflects the stored key, and
    the list was built from the catalog. *)
Definition settled (e : Element) : Prop :=
  noteSequenceSelectorButton e <> None
  /\ noteSequenceSelectorDialog e <> None
  /\ attribute e = reflected (selectedNoteSequenceThemeKey e)
  /\ optionsFromCatalog e.

(** [e'] differs from [e] in nothing that the selection is made of. *)
Definition keeps (e e' : Element) : Prop :=
  attribute e' = attribute e
  /\ selectedNoteSequenceThemeKey e' = selectedNoteSequenceThemeKey e
  /\ selectedNoteSequenceTheme e' = selectedNoteSequenceTheme e
  /\ dispatched e' = dispatched e
  /\ (noteSequenceSelectorButton e <> None ->
      noteSequenceSelectorButton e' <> None)
  /\ (noteSequenceSelectorDialog e <> None ->
      noteSequenceSelectorDialog e' <> None)
  /\ (optionsFromCatalog e -> optionsFromCatalog e').

(** A computation that, started anywhere the selection of [e0] is kept, keeps
    it and does not run out of fuel. *)
Definition stable (e0 : Element) {A} (m : M A) : Prop :=
  forall e, keeps e0 e ->
            keeps e0 (exec m e) /\ completion m e <> OutOfFuel.

(** The element after a sequence of operations on a fresh one. *)
Definition after (fuel : nat) (ops : list Op) : Element :=
  fold_left (fun e op => exec (Rev1.run c fuel op) e) ops Selector.constructed.

(** The invariant of the selection as the specification words it: the key is
    non-null exactly when the theme is, and then the theme is the catalog's
    record for the key. *)
Definition selectionInvariant (e : Element) : Prop :=
  (selectedNoteSequenceThemeKey e <> Null <-> selectedNoteSequenceTheme e <> Null)
  /\ (forall k, selectedNoteSequenceThemeKey e = Val k ->
                exists t, lookup k (allNoteSequenceThemes c) = Some t
                          /\ selectedNoteSequenceTheme e = Val t).

(** An operation that selects nothing but [null] or a key of the catalog. *)
Definition selectsFromCatalog (op : Op) : Prop :=
  match op with
  | HostSetAttribute v => lookup v (allNoteSequenceThemes c) <> None
  | AssignKey Null => True
  | AssignKey Undefined => False
  | AssignKey (Val k) => lookup k (allNoteSequenceThemes c) <> None
  | CallSetRandom random =>
      binary64 random = true /\ (random < 1)%Q
      /\ allNoteSequenceThemes c <> []
  | _ => True
  end.

(** An operation that runs one of the setter paths on the element: an
    attribute write, a removal of a present attribute, a property assignment,
    a random selection, or a click on an option that is there. *)
Definition mutates (e : Element) (op : Op) : Prop :=
  match op with
  | HostSetAttribute _ | AssignKey _ | CallSetRandom _ => True
  | HostRemoveAttribute => attribute e <> None
  | ClickOption g o => Selector.optionAt g o e <> None
  | _ => False
  end.

End Outcomes.

(** A required node is missing. *)
Definition missingNode (e : Element) : Prop :=
  noteSequenceSelectorButton e = None
  \/ noteSequenceSelectorDialog e = None
  \/ noteSequencesContainer e = None
  \/ toggleMoreInfoCheckbox e = None.

(** An element whose shadow tree lacks the toggle checkbox. *)
Definition withoutCheckbox : Element := setCheckbox None Selector.constructed.

(** ** The list, the listeners and the earlier revision, written out flat *)
Section Built.

Variable c : Catalog.

(** The blocks that [#populateNoteSequences()] appends, group by group in the
    order of the metadata table, and whether it reached the end: it stops at
    the first group for which the themes table has no value. *)
Fixpoint builtGroups (ms : Table GroupMetadata) : list GroupWrapper * bool :=
  match ms with
  | [] => ([], true)
  | gm :: ms' =>
      match groupOf c (fst gm) with
      | None => ([], false)
      | Some currentGroup =>
          (Selector.groupDiv (snd gm) currentGroup :: fst (builtGroups ms'),
           snd (builtGroups ms'))
      end
  end.

(** The three listeners of one attach. *)
Definition attachListeners (signal : nat) : list (ListenerTarget * nat) :=
  [(ButtonClick, signal); (CloseClick, signal); (CheckboxChange, signal)].

(** An element as the operations find it and leave it: all five nodes of the
    template are there, the label shows the stored theme, the attribute
    reflects the stored key, the stored theme is what the setter resolves the
    stored key to, the list was built from the catalog, no exception was
    ever reported but the [InvalidStateError] of [showModal()], and every
    signal in use is older than the next one. *)
Definition intact (e : Element) : Prop :=
  noteSequenceSelectorButton e = Some (labelOf (selectedNoteSequenceTheme e))
  /\ noteSequenceSelectorDialog e <> None
  /\ noteSequencesContainer e <> None
  /\ toggleMoreInfoCheckbox e <> None
  /\ closeDialogButton e = true
  /\ attribute e = reflected (selectedNoteSequenceThemeKey e)
  /\ selectedNoteSequenceTheme e = resolved c (selectedNoteSequenceThemeKey e)
  /\ optionsFromCatalog c e
  /\ Forall (fun x => x = InvalidStateError) (reported e)
  /\ Forall (fun l => snd l < nextSignal e) (listeners e)
  /\ (forall s, abortController e = Some s -> s < nextSignal e).

(** What each operation of the later revision leaves of an intact element. *)
Definition assignOutcome (k : Nullable string) (e : Element) : Element :=
  match k with
  | Val s => if s =? "" then clearOutcome k e else selectOutcome c s e
  | _ => clearOutcome k e
  end.

Definition randomKey (random : Q) : Nullable string :=
  match nth_error (keys (allNoteSequenceThemes c))
                  (Rev1.randomIndex random
                     (length (keys (allNoteSequenceThemes c)))) with
  | Some k => Val k
  | None => Undefined
  end.

Definition connectOutcome (e : Element) : Element :=
  setButton (Some (labelOf (selectedNoteSequenceTheme e)))
    (setContainer
       (Some (fst (builtGroups (noteSequenceThemeGroupsMetadata c))))
       (pushCall PopulateCall
          (setListeners (listeners e ++ attachListeners (nextSignal e))
                        (newAbortController e)))).

Definition disconnectOutcome (e : Element) : Element :=
  match abortController e with
  | None => e
  | Some signal =>
      setListeners
        (filter (fun l => negb (snd l =? signal)%nat) (listeners e)) e
  end.

(** One click listener of the trigger on an element that has the dialog. *)
Definition showModalOutcome (e : Element) : Element :=
  match noteSequenceSelectorDialog e with
  | None => e
  | Some d =>
      if isOpen d && isModal d then e
      else if isOpen d || negb (isConnected e)
           then pushReported InvalidStateError e
           else setDialog (Some {| isOpen := true; isModal := true |}) e
  end.

Definition clickButtonOutcome (e : Element) : Element :=
  fold_left (fun e' _ => showModalOutcome e') (bound ButtonClick e) e.

Definition clickCloseOutcome (e : Element) : Element :=
  match bound CloseClick e with
  | [] => e
  | _ :: _ =>
      setDialog (option_map closeDialog (noteSequenceSelectorDialog e)) e
  end.

(** The element after it left the document. *)
Definition removed (e : Element) : Element :=
  setDialog (option_map (fun d => {| isOpen := isOpen d; isModal := false |})
                        (noteSequenceSelectorDialog e))
            (setConnected false e).

Definition changeCheckboxOutcome (checked : bool) (e : Element) : Element :=
  match bound CheckboxChange e with
  | [] => setCheckbox (Some checked) e
  | _ :: _ =>
      setContainer
        (option_map (map (Selector.toggleHiddenGroup (negb checked)))
                    (noteSequencesContainer e))
        (setCheckbox (Some checked) e)
  end.

Definition clickOptionOutcome (g o : nat) (e : Element) : Element :=
  match Selector.optionAt g o e with
  | None => e
  | Some opt => clickOutcome c opt e
  end.

Definition stepOutcome (op : Op) (e : Element) : Element :=
  match op with
  | HostSetAttribute v => hostSetOutcome c v e
  | HostRemoveAttribute => hostRemoveOutcome e
  | AssignKey k => assignOutcome k e
  | CallSetRandom random => assignOutcome (randomKey random) e
  | Connect => connectOutcome (setConnected true e)
  | Disconnect => disconnectOutcome (removed e)
  | ClickButton => clickButtonOutcome e
  | ClickClose => clickCloseOutcome e
  | ChangeCheckbox checked => changeCheckboxOutcome checked e
  | ClickOption g o => clickOptionOutcome g o e
  end.

(** The earlier revision: after the setter ran on a non-empty string, and on
    [null], [undefined] or the empty string. *)
Definition rev0SelectOutcome (s : string) (e : Element) : Element :=
  if attrEq (attribute e) (Some s) then reselectOutcome c s e
  else reselectOutcome c s (reselectOutcome c s e).

Definition rev0ClearOutcome (k : Nullable string) (e : Element) : Element :=
  let e1 := stored k Null e in
  match attribute e with
  | None => e1
  | Some _ => stored Null Null (setAttr None e1)
  end.

(** The earlier revision: after the page wrote [v] to the attribute. *)
Definition rev0HostSetOutcome (v : string) (e : Element) : Element :=
  if attrEq (attribute e) (Some v) then e
  else if v =? "" then rev0ClearOutcome (Val "") (setAttr (Some "") e)
  else reselectOutcome c v (setAttr (Some v) e).

(** The earlier revision: after a click on an option whose key is a non-empty
    string. *)
Definition rev0ClickOutcome (o : NoteSequenceOption) (e : Element) : Element :=
  let k := optionKey o in
  let e1 := setAttr (Some k) (written (Val k) (Val (optionTheme o)) e) in
  let e2 := if attrEq (attribute e) (Some k) then e1
            else reselectOutcome c k e1 in
  setDialog (option_map closeDialog (noteSequenceSelectorDialog e))
    (pushDispatched
       {| noteSequenceThemeKey := selectedNoteSequenceThemeKey e2;
          noteSequenceTheme := selectedNoteSequenceTheme e2 |} e2).

End Built.

(** What the element relies on in the data module, together. *)
Definition wellFormed (c : Catalog) : Prop :=
  keysTruthy c /\ groupsPresent c /\ flattened c.

(** An element whose shadow tree lacks the close button. *)
Definition withoutCloseButton : Element :=
  {| attribute := None;
     isConnected := false;
     noteSequenceSelectorButton := Some "Select Sequence";
     noteSequenceSelectorDialog := Some {| isOpen := false; isModal := false |};
     noteSequencesContainer := Some [];
     toggleMoreInfoCheckbox := Some false;
     abortController := None;
     selectedNoteSequenceThemeKey := Null;
     selectedNoteSequenceTheme := Null;
     closeDialogButton := false;
     listeners := [];
     nextSignal := 0;
     dispatched := [];
     console := [];
     reported := [];
     calls := [] |}.

(** * Properties *)

Lemma attrEq_refl a : attrEq a a = true.
Proof. destruct a; simpl; auto using String.eqb_refl. Qed.

Lemma attrEq_true a b : attrEq a b = true <-> a = b.
Proof.
  destruct a, b; simpl; split; intro H; try congruence.
  - apply String.eqb_eq in H. now subst.
  - inversion H. apply String.eqb_refl.
Qed.

Lemma lookup_In_keys {A} k (t : Table A) v :
  lookup k t = Some v -> In k (keys t).
Proof.
  induction t as [|[k' v'] t IH]; simpl; [discriminate|].
  destruct (String.eqb_spec k k'); [left; congruence | right; auto].
Qed.

Lemma In_keys_lookup {A} k (t : Table A) :
  In k (keys t) -> exists v, lookup k t = Some v.
Proof.
  induction t as [|[k' v'] t IH]; simpl; [tauto|].
  intros [->|H].
  - rewrite String.eqb_refl. eauto.
  - destruct (k =? k'); eauto.
Qed.

Lemma lookup_In {A} k (t : Table A) v :
  lookup k t = Some v -> In (k, v) t.
Proof.
  induction t as [|[k' v'] t IH]; simpl; [discriminate|].
  destruct (String.eqb_spec k k'); [left; congruence | right; auto].
Qed.

Lemma keysTruthy_lookup c k t :
  keysTruthy c -> lookup k (allNoteSequenceThemes c) = Some t -> k <> "".
Proof.
  unfold keysTruthy. rewrite Forall_forall. intros H L.
  apply H. eapply lookup_In_keys; eauto.
Qed.

Lemma nonempty_eqb s : s <> "" -> (s =? "") = false.
Proof. intro H. now apply String.eqb_neq. Qed.

Lemma themeOf_notNull c s : notNull (themeOf c s) = true.
Proof.
  unfold themeOf.
  destruct (lookup s (allNoteSequenceThemes c)); [reflexivity|].
  now destruct (inherited s).
Qed.

Lemma option_eq_dec_string (a b : option string) : {a = b} + {a <> b}.
Proof. decide equality. apply string_dec. Qed.

Lemma setAttr_same e : setAttr (attribute e) e = e.
Proof. now destruct e. Qed.

Module Rev1Facts.
Import Selector.
Section Facts.

Variable c : Catalog.

Local Abbreviation callback := (Rev1.attributeChangedCallback c).

Lemma callback_unfold fuel name old new :
  callback (S fuel) name old new
  = if attrEq old new then ret tt
    else if name =? observedAttribute then
      set_selectedNoteSequenceThemeKey c (callback fuel) (ofAttr new) ;;
      Rev1.dispatchNoteSequenceSelectedEvent
    else ret tt.
Proof. reflexivity. Qed.

Lemma callback_same fuel name v e :
  callback (S fuel) name v v e = (Normal tt, e).
Proof. rewrite callback_unfold, attrEq_refl. reflexivity. Qed.

Lemma setter_body cb k e :
  noteSequenceSelectorButton e <> None ->
  set_selectedNoteSequenceThemeKey c cb k e
  = updateSelectedNoteSequenceAttribute cb (stored k (resolved c k) e).
Proof.
  intros Hb. unfold set_selectedNoteSequenceThemeKey, bind, modify,
    updateNoteSequenceSelectorButtonText. simpl.
  destruct (noteSequenceSelectorButton e); [reflexivity | congruence].
Qed.

Lemma reflect_truthy cb s th e :
  s <> "" ->
  updateSelectedNoteSequenceAttribute cb (stored (Val s) th e)
  = react cb (attribute e) (Some s) (setAttr (Some s) (stored (Val s) th e)).
Proof.
  intros Hs. unfold updateSelectedNoteSequenceAttribute. simpl.
  now rewrite (nonempty_eqb Hs).
Qed.

Lemma reflect_falsy cb k th e :
  truthyString k = false ->
  updateSelectedNoteSequenceAttribute cb (stored k th e)
  = match attribute e with
    | None => (Normal tt, stored k th e)
    | Some old => react cb (Some old) None (setAttr None (stored k th e))
    end.
Proof.
  intros Hk. unfold updateSelectedNoteSequenceAttribute. simpl.
  destruct k as [| |s]; try reflexivity.
  simpl in Hk. destruct (s =? ""); [reflexivity | discriminate].
Qed.

Lemma dispatch_selected e s :
  selectedNoteSequenceThemeKey e = Val s ->
  selectedNoteSequenceTheme e = themeOf c s ->
  Rev1.dispatchNoteSequenceSelectedEvent e
  = (Normal tt, pushDispatched (detailOf c s) e).
Proof.
  intros Hk Ht. unfold Rev1.dispatchNoteSequenceSelectedEvent.
  rewrite Hk, Ht, themeOf_notNull. reflexivity.
Qed.

Lemma setter_select fuel e s :
  2 <= fuel ->
  noteSequenceSelectorButton e <> None ->
  s <> "" ->
  set_selectedNoteSequenceThemeKey c (callback fuel) (Val s) e
  = (Normal tt, selectOutcome c s e).
Proof.
  intros Hf Hb Hs.
  destruct fuel as [|[|fuel]]; try lia.
  assert (Hr : resolved c (Val s) = themeOf c s).
  { unfold resolved. now rewrite (nonempty_eqb Hs). }
  rewrite setter_body by exact Hb. rewrite Hr, reflect_truthy by exact Hs.
  unfold selectOutcome, reselectOutcome, react. rewrite callback_unfold.
  destruct (attrEq (attribute e) (Some s)) eqn:Ea; [reflexivity|].
  rewrite String.eqb_refl. unfold bind at 1. cbn [ofAttr].
  rewrite setter_body by (simpl; discriminate).
  rewrite Hr, reflect_truthy by exact Hs. unfold react.
  cbn [attribute setAttr]. rewrite callback_same.
  now rewrite (@dispatch_selected _ s).
Qed.

Lemma setter_clear fuel e k :
  1 <= fuel ->
  noteSequenceSelectorButton e <> None ->
  truthyString k = false ->
  set_selectedNoteSequenceThemeKey c (callback fuel) k e
  = (Normal tt, clearOutcome k e).
Proof.
  intros Hf Hb Hk.
  destruct fuel as [|fuel]; try lia.
  assert (Hr : resolved c k = Null).
  { unfold resolved. destruct k as [| |s]; auto.
    simpl in Hk. now destruct (s =? ""). }
  rewrite setter_body by exact Hb. rewrite Hr, reflect_falsy by exact Hk.
  unfold clearOutcome.
  destruct (attribute e) as [old|] eqn:Ea; [|reflexivity].
  unfold react. rewrite callback_unfold. cbn [attrEq ofAttr].
  rewrite String.eqb_refl. unfold bind at 1.
  rewrite setter_body by (simpl; discriminate).
  rewrite reflect_falsy by reflexivity.
  reflexivity.
Qed.

Lemma setter_reselect fuel e s :
  1 <= fuel ->
  noteSequenceSelectorButton e <> None ->
  s <> "" ->
  attribute e = Some s ->
  set_selectedNoteSequenceThemeKey c (callback fuel) (Val s) e
  = (Normal tt, reselectOutcome c s e).
Proof.
  intros Hf Hb Hs Ha.
  destruct fuel as [|fuel]; try lia.
  assert (Hr : resolved c (Val s) = themeOf c s).
  { unfold resolved. now rewrite (nonempty_eqb Hs). }
  rewrite setter_body by exact Hb. rewrite Hr, reflect_truthy by exact Hs.
  unfold react. rewrite Ha, callback_same. reflexivity.
Qed.

Lemma dispatch_null e :
  selectedNoteSequenceThemeKey e = Null ->
  Rev1.dispatchNoteSequenceSelectedEvent e
  = (Normal tt, pushConsole nullDataWarning e).
Proof.
  intros Hk. unfold Rev1.dispatchNoteSequenceSelectedEvent.
  rewrite Hk. reflexivity.
Qed.

Lemma host_set fuel e v :
  2 <= fuel ->
  noteSequenceSelectorButton e <> None ->
  Rev1.run c fuel (HostSetAttribute v) e = (Normal tt, hostSetOutcome c v e).
Proof.
  intros Hf Hb. destruct fuel as [|[|fuel]]; try lia.
  unfold Rev1.run, setAttribute, react, hostSetOutcome.
  rewrite callback_unfold.
  destruct (attrEq (attribute e) (Some v)) eqn:Ea.
  - apply attrEq_true in Ea. cbn [ret]. rewrite <- Ea. now rewrite setAttr_same.
  - rewrite String.eqb_refl. unfold bind at 1. cbn [ofAttr].
    destruct (String.eqb_spec v "") as [->|Hv].
    + rewrite setter_clear by (simpl; auto; lia).
      now rewrite dispatch_null.
    + rewrite setter_reselect by (simpl; auto; lia).
      now rewrite (@dispatch_selected _ v).
Qed.

Lemma host_remove fuel e :
  1 <= fuel ->
  noteSequenceSelectorButton e <> None ->
  Rev1.run c fuel HostRemoveAttribute e = (Normal tt, hostRemoveOutcome e).
Proof.
  intros Hf Hb. destruct fuel as [|fuel]; try lia.
  unfold Rev1.run, removeAttribute, hostRemoveOutcome.
  destruct (attribute e) as [old|] eqn:Ea; [|reflexivity].
  unfold react. rewrite callback_unfold. cbn [attrEq ofAttr].
  rewrite String.eqb_refl. unfold bind at 1.
  rewrite setter_body by (simpl; auto).
  rewrite reflect_falsy by reflexivity. cbn [attribute setAttr].
  now rewrite dispatch_null.
Qed.

Lemma click_option fuel e o :
  2 <= fuel ->
  noteSequenceSelectorButton e <> None ->
  noteSequenceSelectorDialog e <> None ->
  optionKey o <> "" ->
  Rev1.optionClick (callback fuel) o e = (Normal tt, clickOutcome c o e).
Proof.
  intros Hf Hb Hd Hk. destruct fuel as [|[|fuel]]; try lia.
  unfold Rev1.optionClick, clickOutcome.
  unfold bind at 1. unfold modify at 1.
  unfold bind at 1. unfold modify at 1.
  unfold bind at 1. unfold updateNoteSequenceSelectorButtonText at 1.
  cbn [noteSequenceSelectorButton setTheme setKey selectedNoteSequenceTheme].
  destruct (noteSequenceSelectorButton e) as [b|] eqn:Eb; [|congruence].
  unfold bind at 1. unfold updateSelectedNoteSequenceAttribute.
  cbn [selectedNoteSequenceThemeKey setButton setTheme setKey].
  rewrite (nonempty_eqb Hk). cbn [negb].
  unfold setAttribute, react. rewrite callback_unfold.
  cbn [attribute setButton setTheme setKey].
  destruct (attrEq (attribute e) (Some (optionKey o))) eqn:Ea.
  - cbn [ret]. unfold close. cbn [noteSequenceSelectorDialog setAttr setButton setTheme setKey].
    destruct (noteSequenceSelectorDialog e); [reflexivity | congruence].
  - rewrite String.eqb_refl. unfold bind at 1. cbn [ofAttr].
    rewrite setter_reselect by (simpl; auto; try discriminate; lia).
    rewrite (@dispatch_selected _ (optionKey o)) by reflexivity.
    unfold close. cbn.
    destruct (noteSequenceSelectorDialog e); [reflexivity | congruence].
Qed.

Lemma assign_select fuel e s :
  2 <= fuel -> noteSequenceSelectorButton e <> None -> s <> "" ->
  Rev1.run c fuel (AssignKey (Val s)) e = (Normal tt, selectOutcome c s e).
Proof. intros. now apply setter_select. Qed.

Lemma assign_clear fuel e k :
  1 <= fuel -> noteSequenceSelectorButton e <> None -> truthyString k = false ->
  Rev1.run c fuel (AssignKey k) e = (Normal tt, clearOutcome k e).
Proof. intros. now apply setter_clear. Qed.

(** The fields of the outcomes, read off in terms of the element before. *)
Lemma selectOutcome_fields s e :
  let e' := selectOutcome c s e in
  selectedNoteSequenceThemeKey e' = Val s
  /\ selectedNoteSequenceTheme e' = themeOf c s
  /\ attribute e' = Some s
  /\ noteSequenceSelectorButton e' = Some (labelOf (themeOf c s))
  /\ noteSequenceSelectorDialog e' = noteSequenceSelectorDialog e
  /\ noteSequencesContainer e' = noteSequencesContainer e
  /\ dispatched e'
     = dispatched e
       ++ (if attrEq (attribute e) (Some s) then [] else [detailOf c s]).
Proof.
  unfold selectOutcome, reselectOutcome.
  destruct (attrEq (attribute e) (Some s)); simpl;
    rewrite ?app_nil_r; repeat split; reflexivity.
Qed.

Lemma clearOutcome_fields k e :
  let e' := clearOutcome k e in
  selectedNoteSequenceThemeKey e'
  = match attribute e with None => k | Some _ => Null end
  /\ selectedNoteSequenceTheme e' = Null
  /\ attribute e' = None
  /\ noteSequenceSelectorButton e' = Some "Select Sequence"
  /\ noteSequenceSelectorDialog e' = noteSequenceSelectorDialog e
  /\ noteSequencesContainer e' = noteSequencesContainer e
  /\ dispatched e' = dispatched e.
Proof.
  unfold clearOutcome.
  destruct (attribute e) eqn:Ea; simpl; rewrite ?Ea; repeat split; reflexivity.
Qed.

Lemma hostSetOutcome_fields v e :
  attribute e <> Some v ->
  let e' := hostSetOutcome c v e in
  selectedNoteSequenceThemeKey e' = (if v =? "" then Null else Val v)
  /\ selectedNoteSequenceTheme e' = (if v =? "" then Null else themeOf c v)
  /\ attribute e' = (if v =? "" then None else Some v)
  /\ noteSequenceSelectorButton e'
     = Some (if v =? "" then "Select Sequence" else labelOf (themeOf c v))
  /\ noteSequenceSelectorDialog e' = noteSequenceSelectorDialog e
  /\ noteSequencesContainer e' = noteSequencesContainer e
  /\ dispatched e'
     = dispatched e ++ (if v =? "" then [] else [detailOf c v]).
Proof.
  intros Ha. unfold hostSetOutcome.
  destruct (attrEq (attribute e) (Some v)) eqn:Ea.
  { apply attrEq_true in Ea. congruence. }
  destruct (v =? ""); unfold clearOutcome, reselectOutcome; simpl;
    rewrite ?app_nil_r; repeat split; reflexivity.
Qed.

Lemma hostRemoveOutcome_fields old e :
  attribute e = Some old ->
  let e' := hostRemoveOutcome e in
  selectedNoteSequenceThemeKey e' = Null
  /\ selectedNoteSequenceTheme e' = Null
  /\ attribute e' = None
  /\ noteSequenceSelectorButton e' = Some "Select Sequence"
  /\ noteSequenceSelectorDialog e' = noteSequenceSelectorDialog e
  /\ noteSequencesContainer e' = noteSequencesContainer e
  /\ dispatched e' = dispatched e.
Proof.
  intros Ha. unfold hostRemoveOutcome. rewrite Ha. simpl.
  repeat split; reflexivity.
Qed.

Lemma clickOutcome_fields o e :
  let k := optionKey o in
  let e' := clickOutcome c o e in
  selectedNoteSequenceThemeKey e' = Val k
  /\ selectedNoteSequenceTheme e'
     = (if attrEq (attribute e) (Some k) then Val (optionTheme o)
        else themeOf c k)
  /\ attribute e' = Some k
  /\ noteSequenceSelectorButton e' <> None
  /\ noteSequenceSelectorDialog e'
     = option_map closeDialog (noteSequenceSelectorDialog e)
  /\ noteSequencesContainer e' = noteSequencesContainer e
  /\ dispatched e'
     = dispatched e
       ++ (if attrEq (attribute e) (Some k) then [] else [detailOf c k]).
Proof.
  unfold clickOutcome, reselectOutcome.
  destruct (attrEq (attribute e) (Some (optionKey o))); simpl;
    rewrite ?app_nil_r; repeat split; try reflexivity; discriminate.
Qed.

End Facts.
End Rev1Facts.

Lemma demo_keysTruthy : keysTruthy demo.
Proof. unfold keysTruthy; simpl; repeat constructor; discriminate. Qed.

Lemma demo_groupsPresent : groupsPresent demo.
Proof. unfold groupsPresent; simpl; repeat constructor; discriminate. Qed.

Lemma demo_flattened : flattened demo.
Proof. unfold flattened; simpl; repeat constructor. Qed.

(** ** Selecting and clearing through the property *)
Section Selection.
Import Selector Rev1Facts.

(** C1: for every key [k] of the flattened catalog, assigning [k] to the
    selection-key property and reading the selection back gives the key [k]
    and the catalog's record for [k], and the observed attribute holds [k]. *)
Theorem set_then_get_selection (c : Catalog) (fuel : nat) (e : Element)
    (k : string) (t : NoteSequenceTheme) :
  keysTruthy c ->
  2 <= fuel ->
  noteSequenceSelectorButton e <> None ->
  lookup k (allNoteSequenceThemes c) = Some t ->
  let m := Rev1.run c fuel (AssignKey (Val k)) in
  completion m e = Normal tt
  /\ get_selectedNoteSequenceThemeKey (exec m e) = Val k
  /\ get_selectedNoteSequenceTheme (exec m e) = Val t
  /\ attribute (exec m e) = Some k.
Proof.
  intros Hc Hf Hb Hk m. subst m.
  unfold completion, exec.
  rewrite assign_select by eauto using keysTruthy_lookup.
  destruct (selectOutcome_fields c k e) as (K & T & A & _).
  unfold get_selectedNoteSequenceThemeKey, get_selectedNoteSequenceTheme.
  cbn [fst snd]. rewrite K, T, A. unfold themeOf. rewrite Hk. auto.
Qed.

Lemma set_then_get_selection_witness :
  let m := Rev1.run demo 2 (AssignKey (Val "ionian")) in
  completion m (constructed) = Normal tt
  /\ get_selectedNoteSequenceThemeKey (exec m constructed) = Val "ionian"
  /\ get_selectedNoteSequenceTheme (exec m constructed) = Val ionian
  /\ attribute (exec m constructed) = Some "ionian".
Proof.
  apply (@set_then_get_selection demo 2 constructed "ionian" ionian).
  - exact demo_keysTruthy.
  - lia.
  - discriminate.
  - reflexivity.
Defined.

(** C4: assigning [null] to the selection-key property clears the stored key
    and the stored theme record and removes the observed attribute. *)
Theorem set_null_clears (c : Catalog) (fuel : nat) (e : Element) :
  1 <= fuel ->
  noteSequenceSelectorButton e <> None ->
  let m := Rev1.run c fuel (AssignKey Null) in
  completion m e = Normal tt
  /\ get_selectedNoteSequenceThemeKey (exec m e) = Null
  /\ get_selectedNoteSequenceTheme (exec m e) = Null
  /\ attribute (exec m e) = None.
Proof.
  intros Hf Hb m. subst m. unfold completion, exec.
  rewrite assign_clear by auto.
  destruct (clearOutcome_fields Null e) as (K & T & A & _).
  unfold get_selectedNoteSequenceThemeKey, get_selectedNoteSequenceTheme.
  cbn [fst snd]. rewrite K, T, A. destruct (attribute e); auto.
Qed.

Lemma set_null_clears_witness :
  let e := exec (Rev1.run demo 2 (AssignKey (Val "ionian"))) constructed in
  let m := Rev1.run demo 2 (AssignKey Null) in
  completion m e = Normal tt
  /\ get_selectedNoteSequenceThemeKey (exec m e) = Null
  /\ get_selectedNoteSequenceTheme (exec m e) = Null
  /\ attribute (exec m e) = None.
Proof.
  apply (@set_null_clears demo 2
           (exec (Rev1.run demo 2 (AssignKey (Val "ionian"))) constructed)).
  - lia.
  - discriminate.
Defined.

(** C6, as the code has it: assigning a non-empty key that the flattened
    catalog lacks does not throw; the stored key becomes that key and the
    attribute reflects it.  When the key is not the name of a member that the
    catalog object inherits, the lookup gives [undefined] (no record) and the
    label falls back to the placeholder; when it is such a name
    ("constructor", "toString", ...), the lookup gives the inherited member,
    which is truthy and has no [primaryName], and the label is empty. *)
Theorem unknown_key_accepted (c : Catalog) (fuel : nat) (e : Element)
    (k : string) :
  2 <= fuel ->
  noteSequenceSelectorButton e <> None ->
  k <> "" ->
  lookup k (allNoteSequenceThemes c) = None ->
  let m := Rev1.run c fuel (AssignKey (Val k)) in
  completion m e = Normal tt
  /\ get_selectedNoteSequenceThemeKey (exec m e) = Val k
  /\ attribute (exec m e) = Some k
  /\ (inherited k = false ->
      get_selectedNoteSequenceTheme (exec m e) = Undefined
      /\ noteSequenceSelectorButton (exec m e) = Some "Select Sequence")
  /\ (inherited k = true ->
      get_selectedNoteSequenceTheme (exec m e) = Val (InheritedMember k)
      /\ noteSequenceSelectorButton (exec m e) = Some "").
Proof.
  intros Hf Hb Hk Hl m. subst m. unfold completion, exec.
  rewrite assign_select by auto.
  destruct (selectOutcome_fields c k e) as (K & T & A & B & _).
  unfold get_selectedNoteSequenceThemeKey, get_selectedNoteSequenceTheme.
  cbn [fst snd]. rewrite K, T, A, B. unfold themeOf. rewrite Hl.
  split; [reflexivity|]. split; [reflexivity|]. split; [reflexivity|].
  split; intros ->; split; reflexivity.
Qed.

Lemma unknown_key_accepted_witness :
  (let m := Rev1.run demo 2 (AssignKey (Val "lydian")) in
   completion m constructed = Normal tt
   /\ get_selectedNoteSequenceThemeKey (exec m constructed) = Val "lydian"
   /\ attribute (exec m constructed) = Some "lydian"
   /\ get_selectedNoteSequenceTheme (exec m constructed) = Undefined
   /\ noteSequenceSelectorButton (exec m constructed)
      = Some "Select Sequence")
  /\ (let m := Rev1.run demo 2 (AssignKey (Val "constructor")) in
      completion m constructed = Normal tt
      /\ get_selectedNoteSequenceThemeKey (exec m constructed)
         = Val "constructor"
      /\ attribute (exec m constructed) = Some "constructor"
      /\ get_selectedNoteSequenceTheme (exec m constructed)
         = Val (InheritedMember "constructor")
      /\ noteSequenceSelectorButton (exec m constructed) = Some "").
Proof.
  split.
  - destruct (@unknown_key_accepted demo 2 constructed "lydian")
      as (C & K & A & U & _);
      [lia | discriminate | discriminate | reflexivity |].
    destruct (U eq_refl) as (T & B).
    exact (conj C (conj K (conj A (conj T B)))).
  - destruct (@unknown_key_accepted demo 2 constructed "constructor")
      as (C & K & A & _ & I);
      [lia | discriminate | discriminate | reflexivity |].
    destruct (I eq_refl) as (T & B).
    exact (conj C (conj K (conj A (conj T B)))).
Defined.

(** C6 as stated fails three times.  The empty string is a non-null key that
    the catalog lacks, and assigning it while the attribute is present leaves
    the stored key [null], not that key; for an unknown non-empty key the
    resolved record is [undefined], which is not [null]; and for the name of
    an inherited member the resolved value is that member, which is neither
    [null] nor a record. *)
Lemma unknown_key_counterexample :
  let e := exec (Rev1.run demo 2 (AssignKey (Val "ionian"))) constructed in
  (lookup "" (allNoteSequenceThemes demo) = None
   /\ get_selectedNoteSequenceThemeKey
        (exec (Rev1.run demo 2 (AssignKey (Val ""))) e) <> Val "")
  /\ (lookup "lydian" (allNoteSequenceThemes demo) = None
      /\ get_selectedNoteSequenceTheme
           (exec (Rev1.run demo 2 (AssignKey (Val "lydian"))) constructed)
         <> Null)
  /\ (lookup "constructor" (allNoteSequenceThemes demo) = None
      /\ get_selectedNoteSequenceTheme
           (exec (Rev1.run demo 2 (AssignKey (Val "constructor")))
                 constructed)
         <> Null).
Proof. repeat split; vm_compute; discriminate. Qed.

(** C10, as the code has it: the empty string clears by truthiness.  Assigned
    to the property it leaves the theme [null], the label on the placeholder
    and the attribute removed; the stored key stays the empty string only when
    the attribute was absent before the call, and when the attribute was
    present its removal re-enters the setter with [null], so the stored key
    ends [null].  Written to the attribute, the empty string ends in the same
    cleared element with the stored key [null]. *)
Theorem empty_string_clears (c : Catalog) (fuel : nat) (e : Element) :
  2 <= fuel ->
  noteSequenceSelectorButton e <> None ->
  (let m := Rev1.run c fuel (AssignKey (Val "")) in
   completion m e = Normal tt
   /\ get_selectedNoteSequenceTheme (exec m e) = Null
   /\ noteSequenceSelectorButton (exec m e) = Some "Select Sequence"
   /\ attribute (exec m e) = None
   /\ get_selectedNoteSequenceThemeKey (exec m e)
      = match attribute e with None => Val "" | Some _ => Null end)
  /\ (attribute e <> Some "" ->
      let m := Rev1.run c fuel (HostSetAttribute "") in
      completion m e = Normal tt
      /\ get_selectedNoteSequenceTheme (exec m e) = Null
      /\ noteSequenceSelectorButton (exec m e) = Some "Select Sequence"
      /\ attribute (exec m e) = None
      /\ get_selectedNoteSequenceThemeKey (exec m e) = Null).
Proof.
  intros Hf Hb. split.
  - intros m. subst m. unfold completion, exec.
    rewrite assign_clear by (auto; lia).
    destruct (clearOutcome_fields (Val "") e) as (K & T & A & B & _).
    unfold get_selectedNoteSequenceThemeKey, get_selectedNoteSequenceTheme.
    cbn [fst snd]. rewrite K, T, A, B. auto.
  - intros Ha m. subst m. unfold completion, exec.
    rewrite host_set by auto.
    destruct (@hostSetOutcome_fields c "" e Ha) as (K & T & A & B & _).
    unfold get_selectedNoteSequenceThemeKey, get_selectedNoteSequenceTheme.
    cbn [fst snd]. rewrite K, T, A, B. auto.
Qed.

Lemma empty_string_clears_witness :
  let e := exec (Rev1.run demo 2 (AssignKey (Val "ionian"))) constructed in
  get_selectedNoteSequenceThemeKey
    (exec (Rev1.run demo 2 (AssignKey (Val ""))) constructed) = Val ""
  /\ get_selectedNoteSequenceThemeKey
       (exec (Rev1.run demo 2 (AssignKey (Val ""))) e) = Null
  /\ get_selectedNoteSequenceThemeKey
       (exec (Rev1.run demo 2 (HostSetAttribute "")) e) = Null.
Proof.
  pose proof (@empty_string_clears demo 2 constructed) as H0.
  pose proof (@empty_string_clears demo 2
                (exec (Rev1.run demo 2 (AssignKey (Val "ionian"))) constructed))
    as H1.
  destruct H0 as [(_ & _ & _ & _ & K0) _]; [lia | discriminate |].
  destruct H1 as [(_ & _ & _ & _ & K1) H2]; [lia | discriminate |].
  destruct H2 as (_ & _ & _ & _ & K2); [discriminate |].
  split; [exact K0 | split; [exact K1 | exact K2]].
Defined.

(** C10 as stated fails: once a key is selected (the attribute is present),
    assigning the empty string to the property, or writing it to the
    attribute, leaves the stored key [null], and the key getter returns
    [null], not the empty string. *)
Lemma empty_string_counterexample :
  let e := exec (Rev1.run demo 2 (AssignKey (Val "ionian"))) constructed in
  get_selectedNoteSequenceThemeKey
    (exec (Rev1.run demo 2 (AssignKey (Val ""))) e) <> Val ""
  /\ get_selectedNoteSequenceThemeKey
       (exec (Rev1.run demo 2 (HostSetAttribute "")) e) <> Val ""
  /\ get_selectedNoteSequenceThemeKey
       (exec (Rev1.run demo 2 (HostSetAttribute "")) constructed) <> Val "".
Proof. repeat split; vm_compute; discriminate. Qed.

End Selection.

(** ** The attribute guard, both revisions *)
Section Guard.
Import Selector.

Lemma rev0_callback_same c fuel name v e :
  Rev0.attributeChangedCallback c (S fuel) name v v e = (Normal tt, e).
Proof. simpl. rewrite attrEq_refl. reflexivity. Qed.

(** C3: writing to the observed attribute the value it already holds changes
    nothing at all, in either revision: the element afterwards is the element
    before, so the setter was not called again, nothing was dispatched and the
    list was not rebuilt (the recorded calls, the dispatched events and the
    container are those of before).  The same holds of the write that the
    setter's own reflection step makes once the attribute holds the key. *)
Theorem reapply_attribute_is_noop (c : Catalog) (fuel : nat) (e : Element)
    (v : string) :
  1 <= fuel ->
  attribute e = Some v ->
  Rev1.run c fuel (HostSetAttribute v) e = (Normal tt, e)
  /\ Rev0.run c fuel (HostSetAttribute v) e = (Normal tt, e)
  /\ (selectedNoteSequenceThemeKey e = Val v -> v <> "" ->
      updateSelectedNoteSequenceAttribute
        (Rev1.attributeChangedCallback c fuel) e = (Normal tt, e)
      /\ updateSelectedNoteSequenceAttribute
           (Rev0.attributeChangedCallback c fuel) e = (Normal tt, e)).
Proof.
  intros Hf Ha. destruct fuel as [|fuel]; [lia|].
  assert (R1 : setAttribute (Rev1.attributeChangedCallback c (S fuel)) v e
               = (Normal tt, e)).
  { unfold setAttribute, react. rewrite Ha, Rev1Facts.callback_same.
    rewrite <- Ha. now rewrite setAttr_same. }
  assert (R0 : setAttribute (Rev0.attributeChangedCallback c (S fuel)) v e
               = (Normal tt, e)).
  { unfold setAttribute, react. rewrite Ha, rev0_callback_same.
    rewrite <- Ha. now rewrite setAttr_same. }
  split; [exact R1 | split; [exact R0 |]].
  intros Hk Hv. unfold updateSelectedNoteSequenceAttribute.
  rewrite Hk, (nonempty_eqb Hv). cbn [negb]. auto.
Qed.

Lemma reapply_attribute_is_noop_witness :
  let e := exec (Rev1.run demo 2 (AssignKey (Val "ionian"))) constructed in
  Rev1.run demo 2 (HostSetAttribute "ionian") e = (Normal tt, e)
  /\ Rev0.run demo 2 (HostSetAttribute "ionian") e = (Normal tt, e).
Proof.
  intros e.
  destruct (@reapply_attribute_is_noop demo 2 e "ionian") as (H1 & H0 & _).
  - lia.
  - reflexivity.
  - split; [exact H1 | exact H0].
Defined.

End Guard.

(** The two revisions differ on an attribute-driven change: the earlier one
    updates the selection without dispatching the event. *)
Example rev0_attribute_change_is_silent :
  let e0 := exec (Rev0.run demo 2 (HostSetAttribute "ionian")) Selector.constructed in
  let e1 := exec (Rev1.run demo 2 (HostSetAttribute "ionian")) Selector.constructed in
  selectedNoteSequenceThemeKey e0 = Val "ionian"
  /\ dispatched e0 = []
  /\ dispatched e1
     = [{| noteSequenceThemeKey := Val "ionian";
           noteSequenceTheme := Val ionian |}].
Proof. repeat split; vm_compute; reflexivity. Qed.

(** ** Attaching without the required nodes *)
Section MissingStructure.
Import Selector.

(** C9: when the trigger button, the dialog, the list container or the toggle
    checkbox is missing at attach time, [connectedCallback] completes normally
    (nothing is thrown), logs one error to the console, binds no listener and
    does not build the list. *)
Theorem missing_node_leaves_inert (c : Catalog) (cb : Reaction) (e : Element) :
  missingNode e ->
  let m := connectedCallback c cb in
  completion m e = Normal tt
  /\ listeners (exec m e) = listeners e
  /\ noteSequencesContainer (exec m e) = noteSequencesContainer e
  /\ calls (exec m e) = calls e
  /\ reported (exec m e) = reported e
  /\ dispatched (exec m e) = dispatched e
  /\ console (exec m e)
     = console e
       ++ [ConsoleError "Failed to find necessary elements in the shadow DOM"].
Proof.
  intros H m. subst m. unfold completion, exec, connectedCallback.
  cbn [noteSequenceSelectorButton noteSequenceSelectorDialog
         noteSequencesContainer toggleMoreInfoCheckbox newAbortController].
  unfold missingNode in H.
  destruct (noteSequenceSelectorButton e) as [b|] eqn:Eb;
    [destruct (noteSequenceSelectorDialog e) as [d|] eqn:Ed;
     [destruct (noteSequencesContainer e) as [gs|] eqn:Eg;
      [destruct (toggleMoreInfoCheckbox e) as [x|] eqn:Ex | ] | ] | ];
    try (simpl; rewrite ?Eg; repeat split; reflexivity).
  destruct H as [H|[H|[H|H]]]; discriminate.
Qed.

Lemma missing_node_leaves_inert_witness :
  let m := connectedCallback demo (Rev1.attributeChangedCallback demo 2) in
  missingNode withoutCheckbox
  /\ completion m withoutCheckbox = Normal tt
  /\ listeners (exec m withoutCheckbox) = []
  /\ noteSequencesContainer (exec m withoutCheckbox) = Some [].
Proof.
  intros m.
  assert (H : missingNode withoutCheckbox) by (right; right; right; reflexivity).
  destruct (@missing_node_leaves_inert demo
              (Rev1.attributeChangedCallback demo 2) withoutCheckbox H)
    as (C & L & G & _).
  split; [exact H | split; [exact C | split; [exact L | exact G]]].
Defined.

End MissingStructure.

(** ** Random selection *)
Section Random.
Import Selector Rev1Facts.

(** Rounding to nearest moves the quotient up by at most half a unit. *)
Lemma roundHalfEven_bounds M d :
  (0 <= M)%Z -> (0 < d)%Z ->
  (0 <= roundHalfEven M d
   /\ roundHalfEven M d * 2 ^ d <= M + 2 ^ (d - 1))%Z.
Proof.
  intros HM Hd. unfold roundHalfEven.
  destruct (Z.leb_spec d 0); [lia|].
  assert (P : (0 < 2 ^ d)%Z) by (apply Z.pow_pos_nonneg; lia).
  assert (E : (2 ^ d = 2 * 2 ^ (d - 1))%Z).
  { replace d with (Z.succ (d - 1)) at 1 by lia. apply Z.pow_succ_r. lia. }
  pose proof (Z.div_mod M (2 ^ d) ltac:(lia)) as DM.
  pose proof (Z.mod_pos_bound M (2 ^ d) P) as MB.
  assert (Q0 : (0 <= M / 2 ^ d)%Z) by (apply Z.div_pos; lia).
  set (q := (M / 2 ^ d)%Z) in *. set (r := (M mod 2 ^ d)%Z) in *.
  set (h := (2 ^ (d - 1))%Z) in *.
  destruct (Z.ltb_spec r h); [nia|].
  destruct (Z.ltb_spec h r); [nia|].
  destruct (Z.even q); nia.
Qed.

(** [Math.floor(r * n)], with the product rounded as the doubles are, is an
    index below [n] for a double [r] of [0, 1) and [n > 0]: the rounding adds
    at most half a unit of the last place, which is less than [n] times the
    distance from [r] to one. *)
Lemma randomIndex_lt (random : Q) (n : nat) :
  binary64 random = true -> (random < 1)%Q -> 0 < n ->
  Rev1.randomIndex random n < n.
Proof.
  intros HB H1 Hn. unfold binary64 in HB.
  apply andb_prop in HB as [HB _]. apply andb_prop in HB as [HB HD].
  apply andb_prop in HB as [H0 H53].
  apply Z.leb_le in H0. apply Z.ltb_lt in H53. apply Z.eqb_eq in HD.
  unfold Qlt in H1. cbn [Qnum Qden] in H1. rewrite HD in H1.
  unfold Rev1.randomIndex.
  assert (Hk : (0 <= Z.log2 (Zpos (Qden random)))%Z) by apply Z.log2_nonneg.
  generalize dependent (Z.log2 (Zpos (Qden random))). intros k _ H1 Hk.
  generalize dependent (Qnum random). intros m H0 H53 H1.
  assert (HN : (0 < Z.of_nat n)%Z) by lia.
  assert (G : forall N, (0 < N)%Z ->
            (0 <= Z.shiftl (roundHalfEven (m * N)
                              (Z.max 0 (Z.log2 (m * N) + 1 - 53)))
                           (Z.max 0 (Z.log2 (m * N) + 1 - 53) - k) < N)%Z);
    [|specialize (G _ HN); lia].
  clear n Hn HN. intros N HN.
  assert (HM : (0 <= m * N)%Z) by nia.
  assert (HMN : (m * N + N <= N * 2 ^ k)%Z) by nia.
  assert (L : (0 < m * N -> 2 ^ Z.log2 (m * N) <= m * N)%Z)
    by (intros M0; apply Z.log2_spec, M0).
  assert (L0 : (m * N = 0 -> Z.log2 (m * N) = 0)%Z) by (now intros ->).
  assert (HmN : (m * N < 2 ^ 53 * N)%Z) by nia.
  generalize dependent (m * N)%Z. intros M HM HMN L L0 HmN.
  assert (Hd : (0 <= Z.max 0 (Z.log2 M + 1 - 53))%Z) by lia.
  assert (D : (0 < Z.max 0 (Z.log2 M + 1 - 53) ->
               Z.log2 M = 52 + Z.max 0 (Z.log2 M + 1 - 53))%Z) by lia.
  generalize dependent (Z.max 0 (Z.log2 M + 1 - 53)). intros d Hd D.
  assert (Pk : (0 < 2 ^ k)%Z) by (apply Z.pow_pos_nonneg; lia).
  assert (Pd : (0 < 2 ^ d)%Z) by (apply Z.pow_pos_nonneg; lia).
  (* the rounded mantissa, scaled back, stays below [N * 2 ^ k] *)
  assert (R : (0 <= roundHalfEven M d
               /\ roundHalfEven M d * 2 ^ d < N * 2 ^ k)%Z).
  { destruct (Z.eq_dec d 0) as [E|E].
    - rewrite E. unfold roundHalfEven. rewrite (proj2 (Z.leb_le 0 0)) by lia.
      rewrite Z.pow_0_r, Z.mul_1_r. split; [exact HM | lia].
    - assert (D0 : (0 < d)%Z) by lia.
      destruct (roundHalfEven_bounds HM D0) as [R0 R1].
      split; [exact R0|].
      specialize (D D0).
      assert (M0 : (0 < M)%Z).
      { destruct (Z.eq_dec M 0) as [Z0|]; [|lia]. specialize (L0 Z0). lia. }
      specialize (L M0). rewrite D in L.
      assert (S : (2 ^ (52 + d) = 2 ^ 53 * 2 ^ (d - 1))%Z).
      { rewrite <- Z.pow_add_r by lia. f_equal. lia. }
      assert (Ph : (0 < 2 ^ (d - 1))%Z) by (apply Z.pow_pos_nonneg; lia).
      rewrite S in L.
      assert (HH : (2 ^ (d - 1) < N)%Z).
      { apply Z.mul_lt_mono_pos_l with (p := (2 ^ 53)%Z); lia. }
      lia. }
  destruct R as [R0 R1].
  generalize dependent (roundHalfEven M d). intros r R0 R1.
  destruct (Z.le_gt_cases k d) as [Hkd|Hkd].
  - rewrite Z.shiftl_mul_pow2 by lia.
    assert (E : (2 ^ d = 2 ^ (d - k) * 2 ^ k)%Z).
    { rewrite <- Z.pow_add_r by lia. f_equal. lia. }
    assert (P : (0 < 2 ^ (d - k))%Z) by (apply Z.pow_pos_nonneg; lia).
    rewrite E in R1. split; [apply Z.mul_nonneg_nonneg; lia|].
    apply Z.mul_lt_mono_pos_r with (p := (2 ^ k)%Z); [exact Pk|]. lia.
  - rewrite Z.shiftl_div_pow2 by lia.
    replace (- (d - k))%Z with (k - d)%Z by lia.
    assert (E : (2 ^ k = 2 ^ (k - d) * 2 ^ d)%Z).
    { rewrite <- Z.pow_add_r by lia. f_equal. lia. }
    assert (P : (0 < 2 ^ (k - d))%Z) by (apply Z.pow_pos_nonneg; lia).
    split; [apply Z.div_pos; lia|].
    apply Z.div_lt_upper_bound; [exact P|].
    rewrite E in R1.
    apply Z.mul_lt_mono_pos_r with (p := (2 ^ d)%Z); [exact Pd|]. lia.
Qed.

(** The rounding is observable: for the double nearest to one third the
    exact product with three is below one, and the rounded one is one. *)
Example product_rounds_to_even :
  binary64 (6004799503160661 # 18014398509481984) = true
  /\ Qfloor ((6004799503160661 # 18014398509481984) * inject_Z 3) = 0%Z
  /\ Rev1.randomIndex (6004799503160661 # 18014398509481984) 3 = 1.
Proof. repeat split; vm_compute; reflexivity. Qed.

(** C7: on a non-empty flattened catalog, and for whatever double
    [Math.random()] returns in [0, 1), the random-selection method picks a
    key of the flattened catalog and does with it exactly what assigning that
    key to the property does; the stored selection is then that key and its
    record. *)
Theorem random_selects_catalog_key (c : Catalog) (fuel : nat) (e : Element)
    (random : Q) :
  keysTruthy c ->
  2 <= fuel ->
  noteSequenceSelectorButton e <> None ->
  allNoteSequenceThemes c <> [] ->
  binary64 random = true ->
  (random < 1)%Q ->
  exists k t,
    In k (keys (allNoteSequenceThemes c))
    /\ lookup k (allNoteSequenceThemes c) = Some t
    /\ Rev1.run c fuel (CallSetRandom random)
       = Rev1.run c fuel (AssignKey (Val k))
    /\ get_selectedNoteSequenceThemeKey
         (exec (Rev1.run c fuel (CallSetRandom random)) e) = Val k
    /\ get_selectedNoteSequenceTheme
         (exec (Rev1.run c fuel (CallSetRandom random)) e) = Val t.
Proof.
  intros Hc Hf Hb Hne H0 H1.
  set (ks := keys (allNoteSequenceThemes c)).
  assert (Hlen : 0 < length ks).
  { unfold ks, keys. rewrite length_map.
    destruct (allNoteSequenceThemes c); [congruence | simpl; lia]. }
  pose proof (randomIndex_lt H0 H1 Hlen) as Hi.
  destruct (nth_error ks (Rev1.randomIndex random (length ks))) as [k|] eqn:En.
  2:{ apply nth_error_None in En. lia. }
  assert (Hin : In k ks) by (eapply nth_error_In; eauto).
  destruct (In_keys_lookup _ _ Hin) as [t Ht].
  assert (Hrun : Rev1.run c fuel (CallSetRandom random)
                 = Rev1.run c fuel (AssignKey (Val k))).
  { unfold Rev1.run, Rev1.setRandomNoteSequence. fold ks. now rewrite En. }
  exists k, t. rewrite Hrun. unfold exec.
  rewrite assign_select by eauto using keysTruthy_lookup.
  destruct (selectOutcome_fields c k e) as (K & T & _).
  unfold get_selectedNoteSequenceThemeKey, get_selectedNoteSequenceTheme.
  cbn [snd]. rewrite K, T. unfold themeOf. rewrite Ht. auto.
Qed.

Lemma random_selects_catalog_key_witness :
  let random := (6004799503160661 # 18014398509481984)%Q in
  exists k t,
    In k (keys (allNoteSequenceThemes demo))
    /\ lookup k (allNoteSequenceThemes demo) = Some t
    /\ Rev1.run demo 2 (CallSetRandom random)
       = Rev1.run demo 2 (AssignKey (Val k))
    /\ get_selectedNoteSequenceThemeKey
         (exec (Rev1.run demo 2 (CallSetRandom random)) constructed) = Val k
    /\ get_selectedNoteSequenceTheme
         (exec (Rev1.run demo 2 (CallSetRandom random)) constructed) = Val t.
Proof.
  apply (@random_selects_catalog_key demo 2 constructed
           (6004799503160661 # 18014398509481984)).
  - exact demo_keysTruthy.
  - lia.
  - discriminate.
  - discriminate.
  - reflexivity.
  - reflexivity.
Defined.

End Random.

(** ** The visibility toggle *)
Section Visibility.
Import Selector.

Lemma toggleHiddenGroup_twice f f' g :
  toggleHiddenGroup f (toggleHiddenGroup f' g) = toggleHiddenGroup f g.
Proof.
  unfold toggleHiddenGroup. simpl. f_equal.
  rewrite map_map. apply map_ext. intros o. reflexivity.
Qed.

Lemma toggle_container_twice f f' (gs : option (list GroupWrapper)) :
  option_map (map (toggleHiddenGroup f))
             (option_map (map (toggleHiddenGroup f')) gs)
  = option_map (map (toggleHiddenGroup f)) gs.
Proof.
  destruct gs as [gs|]; simpl; [|reflexivity].
  f_equal. rewrite map_map. apply map_ext. apply toggleHiddenGroup_twice.
Qed.

Lemma setContainer_same e : setContainer (noteSequencesContainer e) e = e.
Proof. now destruct e. Qed.

Lemma setContainer_twice a b e :
  setContainer a (setContainer b e) = setContainer a e.
Proof. reflexivity. Qed.

Lemma moreInfoElements_nil e :
  moreInfoElements e = [] ->
  option_map (map (toggleHiddenGroup true)) (noteSequencesContainer e)
  = noteSequencesContainer e
  /\ option_map (map (toggleHiddenGroup false)) (noteSequencesContainer e)
     = noteSequencesContainer e.
Proof.
  unfold moreInfoElements.
  destruct (noteSequencesContainer e) as [[|g gs]|]; simpl; auto; discriminate.
Qed.

(** With the checkbox there, [#updateMoreInfoVisibility()] maps the whole
    list. *)
Lemma updateMoreInfoVisibility_checked e checked :
  toggleMoreInfoCheckbox e = Some checked ->
  updateMoreInfoVisibility e
  = (Normal tt,
     setContainer (option_map (map (toggleHiddenGroup (negb checked)))
                              (noteSequencesContainer e)) e).
Proof.
  intros Hx. unfold updateMoreInfoVisibility. rewrite Hx.
  destruct (moreInfoElements e) eqn:Em; [|reflexivity].
  destruct (moreInfoElements_nil _ Em) as [Ht Hf].
  destruct checked; simpl; rewrite ?Ht, ?Hf; now rewrite setContainer_same.
Qed.

Lemma change_listeners_run (l : list (ListenerTarget * nat)) e checked :
  toggleMoreInfoCheckbox e = Some checked ->
  l <> [] ->
  forEach (fun _ => listener updateMoreInfoVisibility) l e
  = (Normal tt,
     setContainer (option_map (map (toggleHiddenGroup (negb checked)))
                              (noteSequencesContainer e)) e).
Proof.
  revert e. induction l as [|x l IH]; intros e Hx Hl; [congruence|].
  cbn [forEach]. unfold bind, listener.
  rewrite (updateMoreInfoVisibility_checked _ Hx).
  destruct l as [|y l'].
  - reflexivity.
  - rewrite IH by (auto; discriminate).
    cbn [noteSequencesContainer setContainer].
    now rewrite toggle_container_twice.
Qed.

Lemma changeCheckbox_bound e checked :
  toggleMoreInfoCheckbox e <> None ->
  bound CheckboxChange e <> [] ->
  changeCheckbox checked e
  = (Normal tt,
     setContainer (option_map (map (toggleHiddenGroup (negb checked)))
                              (noteSequencesContainer e))
                  (setCheckbox (Some checked) e)).
Proof.
  intros Hx Hl. unfold changeCheckbox.
  destruct (toggleMoreInfoCheckbox e) as [x|]; [|congruence].
  unfold bind at 1. unfold modify at 1.
  now rewrite (@change_listeners_run _ _ checked).
Qed.

Lemma changeCheckbox_unbound e checked :
  bound CheckboxChange e = [] ->
  changeCheckbox checked e
  = (Normal tt,
     match toggleMoreInfoCheckbox e with
     | None => e
     | Some _ => setCheckbox (Some checked) e
     end).
Proof.
  intros Hl. unfold changeCheckbox.
  destruct (toggleMoreInfoCheckbox e) as [x|]; [|reflexivity].
  rewrite Hl. reflexivity.
Qed.

Lemma toggled_panels_hidden f gs :
  Forall (fun p => hidden p = f)
         (flat_map (fun g => groupPanel g :: map optionPanel (groupOptions g))
                   (map (toggleHiddenGroup f) gs)).
Proof.
  induction gs as [|g gs IH]; simpl; [constructor|].
  constructor; [reflexivity|].
  apply Forall_app. split; [|exact IH].
  rewrite map_map. apply Forall_forall. intros p Hp.
  apply in_map_iff in Hp. destruct Hp as (o & <- & _). reflexivity.
Qed.

(** C8: while the element is attached (the checkbox is there and its change
    listener is bound) setting the toggle to [checked] leaves every "more
    info" panel visible when checked and collapsed when unchecked; and setting
    it to true, then false, then true leaves every panel, and the whole list,
    as after the first true. *)
Theorem toggle_round_trip (e : Element) :
  toggleMoreInfoCheckbox e <> None ->
  bound CheckboxChange e <> [] ->
  (forall checked,
     Forall (fun p => hidden p = negb checked)
            (moreInfoElements (exec (changeCheckbox checked) e)))
  /\ (let e1 := exec (changeCheckbox true) e in
      let e3 := exec (changeCheckbox true) (exec (changeCheckbox false) e1) in
      moreInfoElements e3 = moreInfoElements e1
      /\ noteSequencesContainer e3 = noteSequencesContainer e1).
Proof.
  intros Hx Hl.
  assert (step : forall e0 checked,
             toggleMoreInfoCheckbox e0 <> None ->
             bound CheckboxChange e0 <> [] ->
             noteSequencesContainer (exec (changeCheckbox checked) e0)
             = option_map (map (toggleHiddenGroup (negb checked)))
                          (noteSequencesContainer e0)
             /\ toggleMoreInfoCheckbox (exec (changeCheckbox checked) e0) <> None
             /\ bound CheckboxChange (exec (changeCheckbox checked) e0) <> []).
  { intros e0 checked H1 H2. unfold exec.
    rewrite changeCheckbox_bound by assumption. cbn [snd].
    split; [reflexivity | split; [discriminate | exact H2]]. }
  split.
  - intros checked. destruct (step e checked Hx Hl) as (C & _).
    unfold moreInfoElements. rewrite C.
    destruct (noteSequencesContainer e) as [gs|]; simpl; [|constructor].
    apply toggled_panels_hidden.
  - intros e1 e3.
    destruct (step e true Hx Hl) as (C1 & X1 & L1). fold e1 in C1, X1, L1.
    destruct (step e1 false X1 L1) as (C2 & X2 & L2).
    destruct (step _ true X2 L2) as (C3 & _). fold e3 in C3.
    assert (G : noteSequencesContainer e3 = noteSequencesContainer e1).
    { rewrite C3, C2, C1. now rewrite !toggle_container_twice. }
    split; [|exact G]. unfold moreInfoElements. now rewrite G.
Qed.

End Visibility.

Lemma toggle_round_trip_witness :
  let e := exec (Rev1.run demo 2 Connect) Selector.constructed in
  Selector.moreInfoElements e <> []
  /\ Forall (fun p => hidden p = false)
            (Selector.moreInfoElements (exec (Selector.changeCheckbox true) e))
  /\ Forall (fun p => hidden p = true)
            (Selector.moreInfoElements (exec (Selector.changeCheckbox false) e)).
Proof.
  intros e.
  destruct (@toggle_round_trip e) as [H _].
  - vm_compute. discriminate.
  - vm_compute. discriminate.
  - split; [vm_compute; discriminate | split; [exact (H true) | exact (H false)]].
Defined.

(** ** Operations that leave the selection alone *)
Section Stable.
Import Selector Rev1Facts.

Variable c : Catalog.
Hypothesis Hflat : flattened c.

Lemma keeps_refl e : keeps c e e.
Proof. unfold keeps. tauto. Qed.

Lemma keeps_trans e1 e2 e3 : keeps c e1 e2 -> keeps c e2 e3 -> keeps c e1 e3.
Proof.
  unfold keeps.
  intros (A1 & K1 & T1 & D1 & B1 & G1 & O1) (A2 & K2 & T2 & D2 & B2 & G2 & O2).
  repeat split; try congruence; auto.
Qed.

Lemma stable_ret e0 A (a : A) : stable c e0 (ret a).
Proof. intros e H. split; [exact H | discriminate]. Qed.

Lemma stable_throw e0 A x : stable c e0 (@throw A x).
Proof. intros e H. split; [exact H | discriminate]. Qed.

Lemma stable_modify e0 f :
  (forall e, keeps c e (f e)) -> stable c e0 (modify f).
Proof.
  intros Hf e H. split; [|discriminate].
  unfold exec, modify. cbn [snd]. eapply keeps_trans; eauto.
Qed.

Lemma stable_bind e0 A B (m : M A) (f : A -> M B) :
  stable c e0 m -> (forall a, stable c e0 (f a)) -> stable c e0 (bind m f).
Proof.
  intros Hm Hf e H. destruct (Hm e H) as [Hk Hc].
  unfold exec, completion, bind in *.
  destruct (m e) as [[a| x |] e']; cbn [fst snd] in *.
  - apply Hf. exact Hk.
  - split; [exact Hk | discriminate].
  - congruence.
Qed.

Lemma stable_forEach e0 A (f : A -> M unit) l :
  (forall a, stable c e0 (f a)) -> stable c e0 (forEach f l).
Proof.
  intros Hf. induction l as [|a l IH]; cbn [forEach].
  - apply stable_ret.
  - apply stable_bind; auto.
Qed.

Lemma keeps_pushReported e x : keeps c e (pushReported x e).
Proof. unfold keeps. simpl. tauto. Qed.

Lemma stable_listener e0 m : stable c e0 m -> stable c e0 (listener m).
Proof.
  intros Hm e H. destruct (Hm e H) as [Hk Hc].
  unfold exec, completion, listener in *.
  destruct (m e) as [[a| x |] e']; cbn [fst snd] in *.
  - split; [exact Hk | discriminate].
  - split; [|discriminate].
    eapply keeps_trans; [exact Hk | apply keeps_pushReported].
  - congruence.
Qed.

Lemma stable_pointwise e0 A (m : M A) :
  (forall e, keeps c e0 e ->
             keeps c e (exec m e) /\ completion m e <> OutOfFuel) ->
  stable c e0 m.
Proof.
  intros Hm e H. destruct (Hm e H) as [Hk Hc].
  split; [eapply keeps_trans; eauto | exact Hc].
Qed.

Ltac keeps_update := unfold keeps, optionsFromCatalog; simpl; tauto.

Lemma keeps_setListeners v e : keeps c e (setListeners v e).
Proof. keeps_update. Qed.

Lemma keeps_setCheckbox v e : keeps c e (setCheckbox v e).
Proof. keeps_update. Qed.

Lemma keeps_pushCall v e : keeps c e (pushCall v e).
Proof. keeps_update. Qed.

Lemma keeps_pushConsole v e : keeps c e (pushConsole v e).
Proof. keeps_update. Qed.

Lemma keeps_newAbortController e : keeps c e (newAbortController e).
Proof. keeps_update. Qed.

Lemma keeps_setButton l e : keeps c e (setButton (Some l) e).
Proof.
  unfold keeps, optionsFromCatalog; simpl.
  repeat split; auto; discriminate.
Qed.

Lemma keeps_setDialog b e : keeps c e (setDialog (Some b) e).
Proof.
  unfold keeps, optionsFromCatalog; simpl.
  repeat split; auto; discriminate.
Qed.

Lemma keeps_setContainer gs e :
  optionsFromCatalog c (setContainer gs e) -> keeps c e (setContainer gs e).
Proof. intros H. unfold keeps. simpl. repeat split; auto. Qed.

Lemma stable_addEventListener e0 t signal :
  stable c e0 (addEventListener t signal).
Proof. apply stable_modify. intros e. apply keeps_setListeners. Qed.

Lemma stable_abort e0 signal : stable c e0 (abort signal).
Proof. apply stable_modify. intros e. apply keeps_setListeners. Qed.

Lemma stable_consoleError e0 m : stable c e0 (consoleError m).
Proof. apply stable_modify. intros e. apply keeps_pushConsole. Qed.

Lemma keeps_setConnected b e : keeps c e (setConnected b e).
Proof. keeps_update. Qed.

Lemma keeps_removed e : keeps c e (removed e).
Proof.
  unfold keeps, optionsFromCatalog, removed; simpl.
  repeat split; auto. destruct (noteSequenceSelectorDialog e); simpl; congruence.
Qed.

Lemma stable_inserted e0 : stable c e0 insertedIntoDocument.
Proof. apply stable_modify. intros e. apply keeps_setConnected. Qed.

Lemma stable_removed e0 : stable c e0 removedFromDocument.
Proof. apply stable_modify. intros e. apply keeps_removed. Qed.

Lemma stable_showModal e0 : stable c e0 showModal.
Proof.
  apply stable_pointwise. intros e _. unfold exec, completion, showModal.
  destruct (noteSequenceSelectorDialog e) as [d|]; cbn [fst snd];
    [|split; [apply keeps_refl | discriminate]].
  destruct (isOpen d && isModal d); cbn [fst snd];
    [split; [apply keeps_refl | discriminate]|].
  destruct (isOpen d || negb (isConnected e)); cbn [fst snd];
    (split; [|discriminate]); [apply keeps_refl | apply keeps_setDialog].
Qed.

Lemma stable_close e0 : stable c e0 close.
Proof.
  apply stable_pointwise. intros e _. unfold exec, completion, close.
  destruct (noteSequenceSelectorDialog e); cbn [fst snd];
    (split; [|discriminate]); [apply keeps_setDialog | apply keeps_refl].
Qed.

Lemma stable_updateText e0 : stable c e0 updateNoteSequenceSelectorButtonText.
Proof.
  apply stable_pointwise. intros e _.
  unfold exec, completion, updateNoteSequenceSelectorButtonText.
  destruct (noteSequenceSelectorButton e); cbn [fst snd];
    (split; [|discriminate]); [apply keeps_setButton | apply keeps_refl].
Qed.

Lemma options_toggle f gs :
  Forall (fun g =>
            Forall (fun o => lookup (optionKey o) (allNoteSequenceThemes c)
                             = Some (optionTheme o)) (groupOptions g)) gs ->
  Forall (fun g =>
            Forall (fun o => lookup (optionKey o) (allNoteSequenceThemes c)
                             = Some (optionTheme o)) (groupOptions g))
         (map (toggleHiddenGroup f) gs).
Proof.
  intros H. apply Forall_forall. intros g Hg.
  apply in_map_iff in Hg. destruct Hg as (g0 & <- & Hin).
  rewrite Forall_forall in H. specialize (H g0 Hin).
  simpl. apply Forall_forall. intros o Ho.
  apply in_map_iff in Ho. destruct Ho as (o0 & <- & Hin0).
  rewrite Forall_forall in H. simpl. auto.
Qed.

Lemma stable_updateMoreInfoVisibility e0 :
  stable c e0 updateMoreInfoVisibility.
Proof.
  apply stable_pointwise. intros e _.
  unfold exec, completion, updateMoreInfoVisibility.
  destruct (moreInfoElements e); [|destruct (toggleMoreInfoCheckbox e)];
    cbn [fst snd]; (split; [|discriminate]); try apply keeps_refl.
  unfold keeps, optionsFromCatalog. simpl. repeat split; auto.
  destruct (noteSequencesContainer e); simpl; auto using options_toggle.
Qed.

Lemma stable_appendChild e0 g :
  Forall (fun o => lookup (optionKey o) (allNoteSequenceThemes c)
                   = Some (optionTheme o)) (groupOptions g) ->
  stable c e0 (appendChild g).
Proof.
  intros Hg. apply stable_pointwise. intros e _.
  unfold exec, completion, appendChild.
  destruct (noteSequencesContainer e) as [gs|] eqn:Eg; cbn [fst snd];
    (split; [|discriminate]); [|apply keeps_refl].
  unfold keeps, optionsFromCatalog. simpl. rewrite Eg.
  repeat split; auto. intros H. apply Forall_app. auto.
Qed.

Lemma groupDiv_options meta g currentGroup :
  groupOf c g = Some currentGroup ->
  Forall (fun o => lookup (optionKey o) (allNoteSequenceThemes c)
                   = Some (optionTheme o))
         (groupOptions (groupDiv meta currentGroup)).
Proof.
  unfold groupOf. intros Hl.
  destruct (lookup g (noteSequenceThemes c)) as [g0|] eqn:El.
  2:{ destruct (inherited g); [|discriminate].
      inversion Hl. subst. constructor. }
  inversion Hl. subst g0. clear Hl. rename El into Hl.
  apply lookup_In in Hl.
  unfold flattened in Hflat. rewrite Forall_forall in Hflat.
  specialize (Hflat _ Hl). cbn [snd] in Hflat.
  simpl. apply Forall_forall. intros o Ho.
  apply in_map_iff in Ho. destruct Ho as (kt & <- & Hin).
  rewrite Forall_forall in Hflat. simpl. auto.
Qed.

Lemma stable_populate e0 : stable c e0 (populateNoteSequences c).
Proof.
  unfold populateNoteSequences. apply stable_bind.
  { apply stable_modify. intros e. apply keeps_pushCall. }
  intros _ e H. destruct (noteSequencesContainer e) eqn:Eg.
  2:{ unfold exec, completion. rewrite Eg. cbn [fst snd].
      split; [exact H | discriminate]. }
  assert (S : stable c e0
                (modify (setContainer (Some [])) ;;
                 forEach (fun gm : string * GroupMetadata =>
                            match groupOf c (fst gm) with
                            | None => throw TypeError
                            | Some currentGroup =>
                                appendChild (groupDiv (snd gm) currentGroup)
                            end)
                         (noteSequenceThemeGroupsMetadata c))).
  { apply stable_bind.
    - apply stable_modify. intros e1. apply keeps_setContainer.
      unfold optionsFromCatalog. simpl. constructor.
    - intros _. apply stable_forEach. intros gm.
      destruct (groupOf c (fst gm)) eqn:El.
      + apply stable_appendChild. eapply groupDiv_options; eauto.
      + apply stable_throw. }
  unfold exec, completion. rewrite Eg. apply S. exact H.
Qed.

End Stable.

(** ** Elements between operations (later revision) *)
Section Settled.
Import Selector Rev1Facts.

Variable c : Catalog.
Hypothesis Hkeys : keysTruthy c.
Hypothesis Hflat : flattened c.
Variable fuel : nat.
Hypothesis Hfuel : 2 <= fuel.

Local Abbreviation callback := (Rev1.attributeChangedCallback c fuel).

(** Once the attribute reflects the stored key, reflecting again does
    nothing. *)
Lemma reflect_settled e :
  attribute e = reflected (selectedNoteSequenceThemeKey e) ->
  updateSelectedNoteSequenceAttribute callback e = (Normal tt, e).
Proof.
  intros Ha. destruct fuel as [|n] eqn:Ef; [lia|].
  unfold updateSelectedNoteSequenceAttribute, reflected in *.
  destruct (selectedNoteSequenceThemeKey e) as [| |k].
  1,2: unfold removeAttribute; now rewrite Ha.
  destruct (k =? ""); cbn [negb].
  - unfold removeAttribute. now rewrite Ha.
  - unfold setAttribute, react. rewrite Ha, callback_same.
    rewrite <- Ha. now rewrite setAttr_same.
Qed.

Lemma stable_reflect e0 :
  attribute e0 = reflected (selectedNoteSequenceThemeKey e0) ->
  stable c e0 (updateSelectedNoteSequenceAttribute callback).
Proof.
  intros Ha e H. unfold exec, completion.
  rewrite reflect_settled.
  - split; [exact H | discriminate].
  - destruct H as (A & K & _). now rewrite A, K.
Qed.

Lemma stable_connected e0 :
  attribute e0 = reflected (selectedNoteSequenceThemeKey e0) ->
  stable c e0 (connectedCallback c callback).
Proof.
  intros Ha e H.
  set (e1 := newAbortController e).
  assert (H1 : keeps c e0 e1).
  { eapply keeps_trans; [exact H | apply keeps_newAbortController]. }
  assert (S : stable c e0
    (addEventListener ButtonClick (nextSignal e) ;;
     (if closeDialogButton e1
      then addEventListener CloseClick (nextSignal e)
      else throw TypeError) ;;
     addEventListener CheckboxChange (nextSignal e) ;;
     populateNoteSequences c ;;
     updateNoteSequenceSelectorButtonText ;;
     updateSelectedNoteSequenceAttribute callback)).
  { apply stable_bind; [apply stable_addEventListener | intros _].
    apply stable_bind.
    { destruct (closeDialogButton e1);
        [apply stable_addEventListener | apply stable_throw]. }
    intros _.
    apply stable_bind; [apply stable_addEventListener | intros _].
    apply stable_bind; [now apply stable_populate | intros _].
    apply stable_bind; [apply stable_updateText | intros _].
    now apply stable_reflect. }
  unfold exec, completion, connectedCallback. cbv zeta. fold e1.
  destruct (noteSequenceSelectorButton e1);
    [destruct (noteSequenceSelectorDialog e1);
     [destruct (noteSequencesContainer e1);
      [destruct (toggleMoreInfoCheckbox e1) | ] | ] | ];
    first [apply (S e1 H1) | apply stable_consoleError; exact H1].
Qed.

Lemma stable_disconnected e0 : stable c e0 disconnectedCallback.
Proof.
  intros e H. unfold exec, completion, disconnectedCallback.
  destruct (abortController e).
  - apply stable_abort. exact H.
  - split; [exact H | discriminate].
Qed.

Lemma stable_changeCheckbox e0 checked : stable c e0 (changeCheckbox checked).
Proof.
  intros e H. unfold exec, completion, changeCheckbox.
  destruct (toggleMoreInfoCheckbox e).
  - apply stable_bind; [|intros _; apply stable_forEach; intros _;
                         apply stable_listener,
                           stable_updateMoreInfoVisibility | exact H].
    apply stable_modify. intros x. apply keeps_setCheckbox.
  - split; [exact H | discriminate].
Qed.

Lemma stable_clickButton e0 : stable c e0 clickButton.
Proof.
  intros e H. unfold exec, completion, clickButton.
  apply stable_forEach; [|exact H].
  intros _. apply stable_listener, stable_showModal.
Qed.

Lemma stable_clickClose e0 : stable c e0 clickClose.
Proof.
  intros e H. unfold exec, completion, clickClose.
  apply stable_forEach; [|exact H].
  intros _. apply stable_listener, stable_close.
Qed.

Lemma settled_keeps e e' : settled c e -> keeps c e e' -> settled c e'.
Proof.
  unfold settled, keeps.
  intros (B & D & A & O) (A' & K' & _ & _ & B' & D' & O').
  repeat split; auto. now rewrite A', K'.
Qed.

Lemma settled_attribute e s :
  settled c e -> (attribute e = Some s <-> selectedNoteSequenceThemeKey e = Val s /\ s <> "").
Proof.
  intros (_ & _ & A & _). rewrite A. unfold reflected.
  destruct (selectedNoteSequenceThemeKey e) as [| |k];
    try (split; [discriminate | intros [? _]; discriminate]).
  destruct (String.eqb_spec k "") as [->|Hk]; split.
  - discriminate.
  - intros [H1 H2]. congruence.
  - intros H. inversion H. subst. auto.
  - intros [H1 H2]. congruence.
Qed.

Lemma assign_truthy_step e s :
  settled c e -> s <> "" ->
  let m := Rev1.run c fuel (AssignKey (Val s)) in
  completion m e = Normal tt
  /\ settled c (exec m e)
  /\ selectedNoteSequenceThemeKey (exec m e) = Val s
  /\ selectedNoteSequenceTheme (exec m e) = themeOf c s
  /\ dispatched (exec m e)
     = dispatched e
       ++ (if attrEq (attribute e) (Some s) then [] else [detailOf c s]).
Proof.
  intros (B & D & A & O) Hs m. subst m. unfold completion, exec.
  rewrite assign_select by auto. cbn [fst snd].
  destruct (selectOutcome_fields c s e) as (K' & T' & A' & B' & D' & G' & E').
  repeat split; auto; try congruence.
  - rewrite A', K'. unfold reflected. now rewrite (nonempty_eqb Hs).
  - unfold optionsFromCatalog in *. now rewrite G'.
Qed.

Lemma assign_falsy_step e k :
  settled c e -> truthyString k = false ->
  let m := Rev1.run c fuel (AssignKey k) in
  completion m e = Normal tt
  /\ settled c (exec m e)
  /\ selectedNoteSequenceThemeKey (exec m e)
     = match attribute e with None => k | Some _ => Null end
  /\ selectedNoteSequenceTheme (exec m e) = Null
  /\ dispatched (exec m e) = dispatched e.
Proof.
  intros (B & D & A & O) Hk m. subst m. unfold completion, exec.
  rewrite assign_clear by (auto; lia). cbn [fst snd].
  destruct (clearOutcome_fields k e) as (K' & T' & A' & B' & D' & G' & E').
  repeat split; auto; try congruence.
  - rewrite A', K'. unfold reflected.
    destruct (attribute e); [reflexivity|].
    destruct k as [| |x]; try reflexivity.
    simpl in Hk. now destruct (x =? "").
  - unfold optionsFromCatalog in *. now rewrite G'.
Qed.

Lemma host_set_same e v :
  attribute e = Some v ->
  Rev1.run c fuel (HostSetAttribute v) e = (Normal tt, e).
Proof.
  intros Ha. destruct fuel as [|n] eqn:Ef; [lia|].
  unfold Rev1.run, setAttribute, react. rewrite Ha, callback_same.
  rewrite <- Ha. now rewrite setAttr_same.
Qed.

Lemma host_set_step e v :
  settled c e -> attribute e <> Some v ->
  let m := Rev1.run c fuel (HostSetAttribute v) in
  completion m e = Normal tt
  /\ settled c (exec m e)
  /\ selectedNoteSequenceThemeKey (exec m e) = (if v =? "" then Null else Val v)
  /\ selectedNoteSequenceTheme (exec m e)
     = (if v =? "" then Null else themeOf c v)
  /\ dispatched (exec m e)
     = dispatched e ++ (if v =? "" then [] else [detailOf c v]).
Proof.
  intros (B & D & A & O) Ha m. subst m. unfold completion, exec.
  rewrite host_set by auto. cbn [fst snd].
  destruct (@hostSetOutcome_fields c v e Ha) as (K' & T' & A' & B' & D' & G' & E').
  repeat split; auto; try congruence.
  - rewrite A', K'. unfold reflected. destruct (v =? "") eqn:Ev; [reflexivity|].
    now rewrite Ev.
  - unfold optionsFromCatalog in *. now rewrite G'.
Qed.

Lemma host_remove_step e :
  settled c e ->
  let m := Rev1.run c fuel HostRemoveAttribute in
  completion m e = Normal tt
  /\ settled c (exec m e)
  /\ selectedNoteSequenceThemeKey (exec m e)
     = match attribute e with
       | None => selectedNoteSequenceThemeKey e
       | Some _ => Null
       end
  /\ selectedNoteSequenceTheme (exec m e)
     = match attribute e with
       | None => selectedNoteSequenceTheme e
       | Some _ => Null
       end
  /\ dispatched (exec m e) = dispatched e.
Proof.
  intros He m. subst m. unfold completion, exec.
  pose proof He as (B & D & A & O).
  rewrite host_remove by (auto; lia). cbn [fst snd].
  destruct (attribute e) as [old|] eqn:Ea.
  - destruct (@hostRemoveOutcome_fields old e Ea)
      as (K' & T' & A' & B' & D' & G' & E').
    repeat split; auto; try congruence.
    + rewrite A', K'. reflexivity.
    + unfold optionsFromCatalog in *. now rewrite G'.
  - unfold hostRemoveOutcome. rewrite Ea. auto.
Qed.

Lemma optionAt_from_catalog e g o opt :
  optionsFromCatalog c e ->
  optionAt g o e = Some opt ->
  lookup (optionKey opt) (allNoteSequenceThemes c) = Some (optionTheme opt).
Proof.
  unfold optionsFromCatalog, optionAt.
  destruct (noteSequencesContainer e) as [gs|]; [|discriminate].
  intros H Hn.
  destruct (nth_error gs g) as [gw|] eqn:Eg; [|discriminate].
  apply nth_error_In in Eg. apply nth_error_In in Hn.
  rewrite Forall_forall in H. specialize (H gw Eg).
  rewrite Forall_forall in H. auto.
Qed.

Lemma click_step e g o opt :
  settled c e ->
  optionAt g o e = Some opt ->
  let m := Rev1.run c fuel (ClickOption g o) in
  let k := optionKey opt in
  completion m e = Normal tt
  /\ settled c (exec m e)
  /\ selectedNoteSequenceThemeKey (exec m e) = Val k
  /\ selectedNoteSequenceTheme (exec m e) = Val (optionTheme opt)
  /\ themeOf c k = Val (optionTheme opt)
  /\ dispatched (exec m e)
     = dispatched e
       ++ (if attrEq (attribute e) (Some k) then [] else [detailOf c k]).
Proof.
  intros (B & D & A & O) Ho m k. subst m k.
  pose proof (optionAt_from_catalog _ _ _ O Ho) as Hl.
  pose proof (keysTruthy_lookup Hkeys Hl) as Hk.
  assert (Ht : themeOf c (optionKey opt) = Val (optionTheme opt)).
  { unfold themeOf. now rewrite Hl. }
  unfold completion, exec, Rev1.run. rewrite Ho. unfold listener.
  rewrite click_option by auto. cbn [fst snd].
  destruct (clickOutcome_fields c opt e) as (K' & T' & A' & B' & D' & G' & E').
  repeat split; auto; try congruence.
  - rewrite D'. destruct (noteSequenceSelectorDialog e); simpl; congruence.
  - rewrite A', K'. unfold reflected. now rewrite (nonempty_eqb Hk).
  - unfold optionsFromCatalog in *. now rewrite G'.
  - rewrite T', Ht. now destruct (attrEq _ _).
Qed.

Lemma click_nothing e g o :
  optionAt g o e = None ->
  Rev1.run c fuel (ClickOption g o) e = (Normal tt, e).
Proof. intros Ho. unfold Rev1.run. now rewrite Ho. Qed.

(** The key that the random selection assigns. *)
Lemma random_is_assign random :
  exists k,
    Rev1.run c fuel (CallSetRandom random) = Rev1.run c fuel (AssignKey k)
    /\ (allNoteSequenceThemes c <> [] ->
        binary64 random = true -> (random < 1)%Q ->
        exists s, k = Val s /\ In s (keys (allNoteSequenceThemes c))).
Proof.
  set (ks := keys (allNoteSequenceThemes c)).
  exists (match nth_error ks (Rev1.randomIndex random (length ks)) with
          | Some k => Val k
          | None => Undefined
          end).
  split; [reflexivity|].
  intros Hne H0 H1.
  assert (Hlen : 0 < length ks).
  { unfold ks, keys. rewrite length_map.
    destruct (allNoteSequenceThemes c); [congruence | simpl; lia]. }
  pose proof (randomIndex_lt H0 H1 Hlen) as Hi.
  destruct (nth_error ks (Rev1.randomIndex random (length ks))) as [k|] eqn:En.
  - exists k. split; [reflexivity | eapply nth_error_In; eauto].
  - apply nth_error_None in En. lia.
Qed.

Lemma truthy_or_not (k : Nullable string) :
  (exists s, k = Val s /\ s <> "") \/ truthyString k = false.
Proof.
  destruct k as [| |s]; auto.
  destruct (String.eqb_spec s "") as [->|Hs]; [right; reflexivity|].
  left. eauto.
Qed.

Lemma assign_step e k :
  settled c e ->
  completion (Rev1.run c fuel (AssignKey k)) e = Normal tt
  /\ settled c (exec (Rev1.run c fuel (AssignKey k)) e).
Proof.
  intros He. destruct (truthy_or_not k) as [(s & -> & Hs)|Hk].
  - destruct (assign_truthy_step He Hs) as (C & S & _). auto.
  - destruct (assign_falsy_step _ He Hk) as (C & S & _). auto.
Qed.

(** Every operation takes a settled element to a settled element, and never
    runs out of fuel. *)
Lemma settled_step e op :
  settled c e ->
  settled c (exec (Rev1.run c fuel op) e)
  /\ completion (Rev1.run c fuel op) e <> OutOfFuel.
Proof.
  intros He. pose proof He as (B & D & A & O).
  assert (frame : forall m : M unit,
             stable c e m ->
             settled c (exec m e) /\ completion m e <> OutOfFuel).
  { intros m Hm. destruct (Hm e (keeps_refl c e)) as [Hk Hc].
    split; [eapply settled_keeps; eauto | exact Hc]. }
  destruct op as [v| |k|random| | | | |checked|g o].
  - destruct (option_eq_dec_string (attribute e) (Some v)) as [Ha|Ha].
    + unfold exec, completion. rewrite (host_set_same _ Ha).
      cbn [fst snd]. split; [exact He | discriminate].
    + destruct (host_set_step He Ha) as (C & S & _).
      split; [exact S | congruence].
  - destruct (host_remove_step He) as (C & S & _).
    split; [exact S | congruence].
  - destruct (assign_step k He) as (C & S). split; [exact S | congruence].
  - destruct (random_is_assign random) as (k & -> & _).
    destruct (assign_step k He) as (C & S). split; [exact S | congruence].
  - apply frame. apply stable_bind; [apply stable_inserted | intros _].
    apply stable_listener. now apply stable_connected.
  - apply frame. apply stable_bind; [apply stable_removed | intros _].
    apply stable_listener, stable_disconnected.
  - apply frame, stable_clickButton.
  - apply frame, stable_clickClose.
  - apply frame, stable_changeCheckbox.
  - destruct (optionAt g o e) as [opt|] eqn:Ho.
    + destruct (@click_step e g o opt He Ho) as (C & S & _).
      split; [exact S | congruence].
    + unfold exec, completion. rewrite (@click_nothing e g o Ho).
      cbn [fst snd]. split; [exact He | discriminate].
Qed.

Lemma constructed_settled : settled c constructed.
Proof.
  unfold settled, optionsFromCatalog. simpl.
  repeat split; try discriminate. constructor.
Qed.

Lemma fold_settled ops e :
  settled c e ->
  settled c (fold_left (fun e op => exec (Rev1.run c fuel op) e) ops e).
Proof.
  revert e. induction ops as [|op ops IH]; intros e He; simpl; [exact He|].
  apply IH. now apply settled_step.
Qed.

Lemma after_settled ops : settled c (after c fuel ops).
Proof. apply fold_settled, constructed_settled. Qed.

Lemma attrEq_settled e k :
  settled c e -> k <> "" ->
  attrEq (attribute e) (Some k) = true <-> selectedNoteSequenceThemeKey e = Val k.
Proof.
  intros He Hk. rewrite attrEq_true, (settled_attribute k He). tauto.
Qed.

Lemma changed_emits e k :
  settled c e -> k <> "" -> selectedNoteSequenceThemeKey e <> Val k ->
  (if attrEq (attribute e) (Some k) then [] else [detailOf c k])
  = [detailOf c k].
Proof.
  intros He Hk Hne. destruct (attrEq (attribute e) (Some k)) eqn:Ea; auto.
  apply (attrEq_settled He Hk) in Ea. congruence.
Qed.

Lemma unchanged_emits e k :
  settled c e -> k <> "" -> selectedNoteSequenceThemeKey e = Val k ->
  (if attrEq (attribute e) (Some k) then [] else [detailOf c k]) = [].
Proof.
  intros He Hk Heq. apply (attrEq_settled He Hk) in Heq. now rewrite Heq.
Qed.

(** C2: after any sequence of operations on a fresh element, a clearing call
    (the property set to [null], or the attribute removed) dispatches no
    [note-sequence-selected] event; and an operation that changes the
    selection to a key of the catalog (through the property, the attribute,
    or a click on an option) dispatches exactly one, whose detail is the key
    and the theme record that the element then stores; selecting again the key
    that is stored dispatches none. *)
Theorem notifications_follow_selection (ops : list Op) :
  let e := after c fuel ops in
  let detailNow e' :=
    {| noteSequenceThemeKey := selectedNoteSequenceThemeKey e';
       noteSequenceTheme := selectedNoteSequenceTheme e' |} in
  dispatched (exec (Rev1.run c fuel (AssignKey Null)) e) = dispatched e
  /\ dispatched (exec (Rev1.run c fuel HostRemoveAttribute) e) = dispatched e
  /\ (forall k t op,
        lookup k (allNoteSequenceThemes c) = Some t ->
        op = AssignKey (Val k) \/ op = HostSetAttribute k ->
        selectedNoteSequenceThemeKey e <> Val k ->
        let e' := exec (Rev1.run c fuel op) e in
        dispatched e' = dispatched e ++ [detailNow e']
        /\ selectedNoteSequenceThemeKey e' = Val k
        /\ selectedNoteSequenceTheme e' = Val t)
  /\ (forall g o opt,
        optionAt g o e = Some opt ->
        selectedNoteSequenceThemeKey e <> Val (optionKey opt) ->
        let e' := exec (Rev1.run c fuel (ClickOption g o)) e in
        dispatched e' = dispatched e ++ [detailNow e']
        /\ selectedNoteSequenceThemeKey e' = Val (optionKey opt)
        /\ selectedNoteSequenceTheme e' = Val (optionTheme opt))
  /\ (forall k t op,
        lookup k (allNoteSequenceThemes c) = Some t ->
        op = AssignKey (Val k) \/ op = HostSetAttribute k ->
        selectedNoteSequenceThemeKey e = Val k ->
        dispatched (exec (Rev1.run c fuel op) e) = dispatched e).
Proof.
  intros e detailNow. pose proof (after_settled ops) as He. fold e in He.
  split; [|split; [|split; [|split]]].
  - now destruct (@assign_falsy_step e Null He eq_refl) as (_ & _ & _ & _ & E).
  - now destruct (host_remove_step He) as (_ & _ & _ & _ & E).
  - intros k t op Hl Hop Hne e'.
    pose proof (keysTruthy_lookup Hkeys Hl) as Hk.
    assert (Ht : themeOf c k = Val t) by (unfold themeOf; now rewrite Hl).
    destruct Hop as [-> | ->].
    + destruct (@assign_truthy_step e k He Hk) as (_ & _ & K & T & E).
      fold e' in K, T, E. rewrite (changed_emits He Hk Hne) in E.
      unfold detailNow. rewrite K, T, E, <- Ht. auto.
    + assert (Ha : attribute e <> Some k).
      { intros Ha. apply (settled_attribute k He) in Ha. tauto. }
      destruct (@host_set_step e k He Ha) as (_ & _ & K & T & E).
      fold e' in K, T, E. rewrite (nonempty_eqb Hk) in K, T, E.
      unfold detailNow. rewrite K, T, E, <- Ht. auto.
  - intros g o opt Ho Hne e'.
    destruct (@click_step e g o opt He Ho) as (_ & _ & K & T & Ht & E).
    fold e' in K, T, E.
    pose proof (optionAt_from_catalog _ _ _ (proj2 (proj2 (proj2 He))) Ho) as Hl.
    pose proof (keysTruthy_lookup Hkeys Hl) as Hk.
    rewrite (changed_emits He Hk Hne) in E.
    unfold detailNow. rewrite K, T, E. unfold detailOf. rewrite Ht. auto.
  - intros k t op Hl Hop Heq.
    pose proof (keysTruthy_lookup Hkeys Hl) as Hk.
    destruct Hop as [-> | ->].
    + destruct (@assign_truthy_step e k He Hk) as (_ & _ & _ & _ & E).
      rewrite (unchanged_emits He Hk Heq), app_nil_r in E. exact E.
    + assert (Ha : attribute e = Some k).
      { apply (settled_attribute k He). auto. }
      unfold exec. now rewrite (host_set_same _ Ha).
Qed.

Lemma invariant_selected e k (t : NoteSequenceTheme) :
  selectedNoteSequenceThemeKey e = Val k ->
  selectedNoteSequenceTheme e = Val t ->
  lookup k (allNoteSequenceThemes c) = Some t ->
  selectionInvariant c e.
Proof.
  intros K T L. unfold selectionInvariant. rewrite K, T. split.
  - split; discriminate.
  - intros k' Hk'. inversion Hk'. subst. eauto.
Qed.

Lemma invariant_cleared e :
  selectedNoteSequenceThemeKey e = Null ->
  selectedNoteSequenceTheme e = Null ->
  selectionInvariant c e.
Proof.
  intros K T. unfold selectionInvariant. rewrite K, T. split.
  - tauto.
  - discriminate.
Qed.

(** What a truthy key resolves to. *)
Lemma resolved_truthy s : s <> "" -> resolved c (Val s) = themeOf c s.
Proof. intros Hs. unfold resolved. now rewrite (nonempty_eqb Hs). Qed.

Lemma resolved_falsy k : truthyString k = false -> resolved c k = Null.
Proof.
  destruct k as [| |s]; try reflexivity. simpl. now destruct (s =? "").
Qed.

(** Every operation leaves the stored theme what the setter resolves the
    stored key to. *)
Lemma resolves_step e op :
  settled c e ->
  selectedNoteSequenceTheme e = resolved c (selectedNoteSequenceThemeKey e) ->
  let e' := exec (Rev1.run c fuel op) e in
  selectedNoteSequenceTheme e' = resolved c (selectedNoteSequenceThemeKey e').
Proof.
  intros He Hr.
  assert (frame : forall m : M unit,
             stable c e m ->
             selectedNoteSequenceTheme (exec m e)
             = resolved c (selectedNoteSequenceThemeKey (exec m e))).
  { intros m Hm. destruct (Hm e (keeps_refl c e)) as [(_ & K & T & _) _].
    now rewrite K, T. }
  assert (assign : forall k,
             selectedNoteSequenceTheme (exec (Rev1.run c fuel (AssignKey k)) e)
             = resolved c (selectedNoteSequenceThemeKey
                             (exec (Rev1.run c fuel (AssignKey k)) e))).
  { intros k. destruct (truthy_or_not k) as [(s & -> & Hs)|Hk].
    - destruct (@assign_truthy_step e s He Hs) as (_ & _ & K & T & _).
      now rewrite K, T, resolved_truthy.
    - destruct (@assign_falsy_step e k He Hk) as (_ & _ & K & T & _).
      rewrite K, T. destruct (attribute e); [reflexivity|].
      now rewrite resolved_falsy. }
  destruct op as [v| |k|random| | | | |checked|g o]; cbv zeta.
  - destruct (option_eq_dec_string (attribute e) (Some v)) as [Ha|Ha].
    + unfold exec. now rewrite (host_set_same _ Ha).
    + destruct (@host_set_step e v He Ha) as (_ & _ & K & T & _).
      rewrite K, T. destruct (String.eqb_spec v "") as [->|Hv]; [reflexivity|].
      now rewrite resolved_truthy.
  - destruct (host_remove_step He) as (_ & _ & K & T & _).
    rewrite K, T. now destruct (attribute e).
  - apply assign.
  - destruct (random_is_assign random) as (k & -> & _). apply assign.
  - apply frame. apply stable_bind; [apply stable_inserted | intros _].
    apply stable_listener. apply stable_connected; auto.
    now destruct He as (_ & _ & A & _).
  - apply frame. apply stable_bind; [apply stable_removed | intros _].
    apply stable_listener, stable_disconnected.
  - apply frame, stable_clickButton.
  - apply frame, stable_clickClose.
  - apply frame, stable_changeCheckbox.
  - destruct (optionAt g o e) as [opt|] eqn:Ho.
    + destruct (@click_step e g o opt He Ho) as (_ & _ & K & T & Ht & _).
      pose proof (optionAt_from_catalog _ _ _ (proj2 (proj2 (proj2 He))) Ho)
        as Hl.
      pose proof (keysTruthy_lookup Hkeys Hl) as Hk.
      now rewrite K, T, resolved_truthy.
    + unfold exec. now rewrite (@click_nothing e g o Ho).
Qed.

Lemma fold_resolves ops e :
  settled c e ->
  selectedNoteSequenceTheme e = resolved c (selectedNoteSequenceThemeKey e) ->
  let e' := fold_left (fun e op => exec (Rev1.run c fuel op) e) ops e in
  selectedNoteSequenceTheme e' = resolved c (selectedNoteSequenceThemeKey e').
Proof.
  revert e. induction ops as [|op ops IH]; intros e He Hr; simpl; [exact Hr|].
  apply IH.
  - now apply settled_step.
  - now apply resolves_step.
Qed.

Lemma after_resolves ops :
  selectedNoteSequenceTheme (after c fuel ops)
  = resolved c (selectedNoteSequenceThemeKey (after c fuel ops)).
Proof.
  unfold after. apply fold_resolves; [apply constructed_settled | reflexivity].
Qed.

(** C5, as the code has it: whatever operations came before (also ones that
    stored a key outside the catalog), after a mutation through a setter path
    (an attribute write or the removal of a present attribute, a property
    assignment, a random selection, a click on an option) in which the key
    supplied is [null] or a key of the flattened catalog, the stored key is
    non-null exactly when the stored theme is, and then the theme is the
    catalog's record for the key. *)
Theorem selection_invariant_on_catalog_keys (ops : list Op) (op : Op) :
  mutates (after c fuel ops) op ->
  selectsFromCatalog c op ->
  selectionInvariant c (exec (Rev1.run c fuel op) (after c fuel ops)).
Proof.
  pose proof (after_settled ops) as He. pose proof (after_resolves ops) as Hr.
  generalize dependent (after c fuel ops). intros e He Hr Hm Hop.
  assert (assign : forall k, In k (keys (allNoteSequenceThemes c)) ->
             selectionInvariant c (exec (Rev1.run c fuel (AssignKey (Val k))) e)).
  { intros k Hin. destruct (In_keys_lookup _ _ Hin) as [t Hl].
    pose proof (keysTruthy_lookup Hkeys Hl) as Hk.
    destruct (@assign_truthy_step e k He Hk) as (_ & _ & K & T & _).
    eapply invariant_selected; eauto.
    rewrite T. unfold themeOf. now rewrite Hl. }
  destruct op as [v| |k|random| | | | |checked|g o];
    cbn [selectsFromCatalog mutates] in Hop, Hm; try contradiction.
  - destruct (lookup v (allNoteSequenceThemes c)) as [t|] eqn:Hl; [|congruence].
    pose proof (keysTruthy_lookup Hkeys Hl) as Hk.
    destruct (option_eq_dec_string (attribute e) (Some v)) as [Ha|Ha].
    + unfold exec. rewrite (host_set_same _ Ha). cbn [snd].
      apply (settled_attribute v He) in Ha. destruct Ha as [K _].
      apply (@invariant_selected e v t K); [|exact Hl].
      rewrite Hr, K, resolved_truthy by exact Hk.
      unfold themeOf. now rewrite Hl.
    + destruct (@host_set_step e v He Ha) as (_ & _ & K & T & _).
      rewrite (nonempty_eqb Hk) in K, T.
      eapply invariant_selected; eauto.
      rewrite T. unfold themeOf. now rewrite Hl.
  - destruct (host_remove_step He) as (_ & _ & K & T & _).
    destruct (attribute e); [|congruence].
    now apply invariant_cleared.
  - destruct k as [| |k]; [|tauto|].
    + destruct (@assign_falsy_step e Null He eq_refl) as (_ & _ & K & T & _).
      apply invariant_cleared; auto. now destruct (attribute e).
    + apply assign.
      destruct (lookup k (allNoteSequenceThemes c)) eqn:Hl; [|congruence].
      eapply lookup_In_keys; eauto.
  - destruct Hop as (H0 & H1 & Hne).
    destruct (random_is_assign random) as (k & -> & Hk).
    destruct (Hk Hne H0 H1) as (s & -> & Hin). now apply assign.
  - destruct (optionAt g o e) as [opt|] eqn:Ho; [|congruence].
    destruct (@click_step e g o opt He Ho) as (_ & _ & K & T & _).
    eapply invariant_selected; eauto.
    eapply optionAt_from_catalog; eauto. now destruct He as (_ & _ & _ & O).
Qed.

End Settled.

Lemma notifications_follow_selection_witness :
  let e := after demo 2 [Connect; AssignKey (Val "ionian")] in
  dispatched e
  = [{| noteSequenceThemeKey := Val "ionian"; noteSequenceTheme := Val ionian |}]
  /\ dispatched (exec (Rev1.run demo 2 (AssignKey Null)) e) = dispatched e
  /\ dispatched (exec (Rev1.run demo 2 (HostSetAttribute "dorian")) e)
     = dispatched e
       ++ [{| noteSequenceThemeKey := Val "dorian";
              noteSequenceTheme := Val dorian |}]
  /\ dispatched (exec (Rev1.run demo 2 (ClickOption 0 2)) e)
     = dispatched e
       ++ [{| noteSequenceThemeKey := Val "phrygian";
              noteSequenceTheme := Val phrygian |}].
Proof.
  intros e.
  destruct (@notifications_follow_selection demo demo_keysTruthy demo_flattened
              2 (le_n 2) [Connect; AssignKey (Val "ionian")])
    as (H1 & _ & H3 & H4 & _).
  fold e in H1, H3, H4.
  split; [vm_compute; reflexivity | split; [exact H1 | split]].
  - assert (Hl : lookup "dorian" (allNoteSequenceThemes demo) = Some dorian)
      by (vm_compute; reflexivity).
    assert (Hne : selectedNoteSequenceThemeKey e <> Val "dorian")
      by (vm_compute; discriminate).
    destruct (H3 "dorian" dorian (HostSetAttribute "dorian") Hl
                (or_intror eq_refl) Hne) as (E & K & T).
    rewrite K, T in E. exact E.
  - assert (Ho : Selector.optionAt 0 2 e
                 = Some (Selector.noteSequenceDiv ("phrygian", phrygian)))
      by (vm_compute; reflexivity).
    assert (Hne : selectedNoteSequenceThemeKey e
                  <> Val (optionKey (Selector.noteSequenceDiv
                                       ("phrygian", phrygian))))
      by (vm_compute; discriminate).
    destruct (H4 0 2 _ Ho Hne) as (E & K & T).
    rewrite K, T in E. exact E.
Defined.

Lemma selection_invariant_on_catalog_keys_witness :
  selectionInvariant demo
    (exec (Rev1.run demo 2 (AssignKey (Val "ionian")))
          (after demo 2 [Connect; AssignKey (Val "lydian")])).
Proof.
  apply (@selection_invariant_on_catalog_keys demo demo_keysTruthy
           demo_flattened 2 (le_n 2) [Connect; AssignKey (Val "lydian")]
           (AssignKey (Val "ionian"))).
  - exact I.
  - simpl. discriminate.
Defined.

(** C5 as stated fails on keys outside the catalog.  Assigning the empty
    string to the property of a fresh element leaves a non-null key with a
    null theme; writing an unknown key to the attribute leaves that key stored
    although the catalog has no record for it. *)
Lemma selection_invariant_counterexample :
  ~ selectionInvariant demo (after demo 2 [AssignKey (Val "")])
  /\ ~ selectionInvariant demo (after demo 2 [HostSetAttribute "lydian"]).
Proof.
  split; intros [Hiff Hrec].
  - assert (Hk : selectedNoteSequenceThemeKey (after demo 2 [AssignKey (Val "")])
                <> Null) by (vm_compute; discriminate).
    assert (Ht : selectedNoteSequenceTheme (after demo 2 [AssignKey (Val "")])
                = Null) by (vm_compute; reflexivity).
    apply Hiff in Hk. contradiction.
  - assert (Hk : selectedNoteSequenceThemeKey
                   (after demo 2 [HostSetAttribute "lydian"]) = Val "lydian")
      by (vm_compute; reflexivity).
    destruct (Hrec "lydian" Hk) as (t & Hl & _).
    vm_compute in Hl. discriminate.
Qed.

(** ** Building the list *)
Section Populate.
Import Selector.

Variable c : Catalog.

Lemma setContainer_is e gs :
  noteSequencesContainer e = Some gs -> setContainer (Some gs) e = e.
Proof. intros <-. apply setContainer_same. Qed.

Lemma append_groups ms : forall e acc,
  noteSequencesContainer e = Some acc ->
  forEach (fun gm : string * GroupMetadata =>
             match groupOf c (fst gm) with
             | None => throw TypeError
             | Some currentGroup => appendChild (groupDiv (snd gm) currentGroup)
             end) ms e
  = (if snd (builtGroups c ms) then Normal tt else Throw TypeError,
     setContainer (Some (acc ++ fst (builtGroups c ms))) e).
Proof.
  induction ms as [|gm ms IH]; intros e acc Hc; cbn [forEach builtGroups].
  - cbn [fst snd]. rewrite app_nil_r, (setContainer_is _ Hc). reflexivity.
  - destruct (groupOf c (fst gm)) as [g|]; cbn [fst snd].
    + unfold bind at 1. unfold appendChild at 1. rewrite Hc.
      rewrite (IH _ (acc ++ [groupDiv (snd gm) g])) by reflexivity.
      rewrite <- app_assoc. reflexivity.
    + unfold bind, throw. rewrite app_nil_r, (setContainer_is _ Hc).
      reflexivity.
Qed.

Lemma populate_flat (e : Element) :
  noteSequencesContainer e <> None ->
  populateNoteSequences c e
  = (if snd (builtGroups c (noteSequenceThemeGroupsMetadata c))
     then Normal tt else Throw TypeError,
     setContainer
       (Some (fst (builtGroups c (noteSequenceThemeGroupsMetadata c))))
       (pushCall PopulateCall e)).
Proof.
  intros Hc. unfold populateNoteSequences.
  unfold bind at 1. unfold modify at 1.
  cbn [noteSequencesContainer pushCall].
  destruct (noteSequencesContainer e) as [old|]; [|congruence].
  unfold bind at 1. unfold modify at 1.
  rewrite (@append_groups _ _ []) by reflexivity.
  reflexivity.
Qed.


Lemma builtGroups_complete ms :
  Forall (fun gm => lookup (fst gm) (noteSequenceThemes c) <> None) ms ->
  snd (builtGroups c ms) = true
  /\ fst (builtGroups c ms)
     = map (fun gm =>
              groupDiv (snd gm)
                       (match lookup (fst gm) (noteSequenceThemes c) with
                        | Some g => g
                        | None => []
                        end)) ms.
Proof.
  induction 1 as [|gm ms Hg _ [IH1 IH2]]; cbn [builtGroups map]; [auto|].
  unfold groupOf.
  destruct (lookup (fst gm) (noteSequenceThemes c)); [|congruence].
  cbn [fst snd]. rewrite IH2. auto.
Qed.

Lemma builtGroups_hidden ms :
  Forall (fun p => hidden p = true)
         (flat_map (fun g => groupPanel g :: map optionPanel (groupOptions g))
                   (fst (builtGroups c ms))).
Proof.
  induction ms as [|gm ms IH]; cbn [builtGroups]; [constructor|].
  destruct (groupOf c (fst gm)) as [g|]; [|constructor].
  cbn [fst flat_map]. constructor; [reflexivity|].
  apply Forall_app. split; [|exact IH].
  simpl. rewrite map_map. apply Forall_forall. intros p Hp.
  apply in_map_iff in Hp. destruct Hp as (kt & <- & _). reflexivity.
Qed.

Lemma builtGroups_options ms :
  flattened c ->
  Forall (fun g =>
            Forall (fun o => lookup (optionKey o) (allNoteSequenceThemes c)
                             = Some (optionTheme o)) (groupOptions g))
         (fst (builtGroups c ms)).
Proof.
  intros Hflat. induction ms as [|gm ms IH]; cbn [builtGroups]; [constructor|].
  destruct (groupOf c (fst gm)) as [g|] eqn:El;
    [|constructor].
  cbn [fst]. constructor; [|exact IH].
  eapply groupDiv_options; eauto.
Qed.

End Populate.



(** A group key for which the themes table only has an inherited member:
    [Object.entries] of the member is empty, so the block has no option and
    nothing is thrown; for any other missing group the method throws. *)
Example inherited_group_is_empty :
  let meta := {| displayName := "Group"; description := "About" |} in
  let named k :=
    {| noteSequenceThemeGroupsMetadata := [(k, meta)];
       noteSequenceThemes := [];
       allNoteSequenceThemes := [] |} in
  Selector.populateNoteSequences (named "constructor") Selector.constructed
  = (Normal tt,
     setContainer (Some [Selector.groupDiv meta []])
                  (pushCall PopulateCall Selector.constructed))
  /\ completion (Selector.populateNoteSequences (named "chromatic"))
                Selector.constructed
     = Throw TypeError.
Proof. split; vm_compute; reflexivity. Qed.

(** ** Every operation on an intact element, flat *)
Section Intact.
Import Selector Rev1Facts.

Variable c : Catalog.
Hypothesis Hkeys : keysTruthy c.
Hypothesis Hgroups : groupsPresent c.
Hypothesis Hflat : flattened c.
Variable fuel : nat.
Hypothesis Hfuel : 2 <= fuel.

Lemma bind_modify f (m : M unit) e : (modify f ;; m)%js e = m (f e).
Proof. reflexivity. Qed.

Lemma bind_normal (m1 m2 : M unit) e e' :
  m1 e = (Normal tt, e') -> (m1 ;; m2)%js e = m2 e'.
Proof. intros H. unfold bind. now rewrite H. Qed.

Lemma setListeners_twice a b e :
  setListeners a (setListeners b e) = setListeners a e.
Proof. reflexivity. Qed.

Lemma intact_button e : intact c e -> noteSequenceSelectorButton e <> None.
Proof. intros (B & _). rewrite B. discriminate. Qed.

Lemma intact_settled e : intact c e -> settled c e.
Proof.
  intros He. pose proof (intact_button He) as Hb.
  destruct He as (_ & D & _ & _ & _ & A & _ & O & _).
  repeat split; auto.
Qed.

Lemma connect_intact e :
  intact c e ->
  connectedCallback c (Rev1.attributeChangedCallback c fuel) e
  = (Normal tt, connectOutcome c e).
Proof.
  intros He. pose proof (intact_button He) as Hb.
  destruct He as (B & D & G & X & Cl & A & _).
  unfold connectedCallback. cbv zeta.
  cbn [noteSequenceSelectorButton noteSequenceSelectorDialog
         noteSequencesContainer toggleMoreInfoCheckbox closeDialogButton
         newAbortController].
  destruct (noteSequenceSelectorButton e) as [b|] eqn:Eb; [|congruence].
  destruct (noteSequenceSelectorDialog e) as [d|]; [|congruence].
  destruct (noteSequencesContainer e) as [gs|] eqn:Eg; [|congruence].
  destruct (toggleMoreInfoCheckbox e) as [x|]; [|congruence].
  rewrite Cl. unfold addEventListener.
  rewrite !bind_modify.
  cbn [listeners newAbortController setListeners].
  rewrite !setListeners_twice, <- !app_assoc. cbn [app].
  destruct (builtGroups_complete c Hgroups) as [Hok _].
  unfold bind at 1.
  rewrite populate_flat
    by (cbn [noteSequencesContainer setListeners newAbortController];
        rewrite Eg; discriminate).
  rewrite Hok.
  unfold bind at 1. unfold updateNoteSequenceSelectorButtonText at 1.
  cbn [noteSequenceSelectorButton setContainer pushCall setListeners
         newAbortController selectedNoteSequenceTheme].
  rewrite Eb.
  rewrite reflect_settled; [reflexivity | exact Hfuel | exact A].
Qed.

Lemma setDialog_twice a b e : setDialog a (setDialog b e) = setDialog a e.
Proof. reflexivity. Qed.

(** One click listener of the trigger: [showModal()] either returns at
    once, or opens the dialog as a modal, or throws [InvalidStateError], which
    the listener leaves to be reported. *)
Lemma showModal_listener e :
  noteSequenceSelectorDialog e <> None ->
  listener showModal e = (Normal tt, showModalOutcome e).
Proof.
  intros Hd. unfold listener, showModal, showModalOutcome.
  destruct (noteSequenceSelectorDialog e) as [d|]; [|congruence].
  destruct (isOpen d && isModal d); [reflexivity|].
  now destruct (isOpen d || negb (isConnected e)).
Qed.

Lemma showModalOutcome_dialog e :
  noteSequenceSelectorDialog e <> None ->
  noteSequenceSelectorDialog (showModalOutcome e) <> None.
Proof.
  intros Hd. unfold showModalOutcome.
  destruct (noteSequenceSelectorDialog e) as [d|] eqn:Ed; [|congruence].
  destruct (isOpen d && isModal d); [now rewrite Ed|].
  destruct (isOpen d || negb (isConnected e)); simpl;
    [now rewrite Ed | discriminate].
Qed.

Lemma showModal_listeners_run (l : list (ListenerTarget * nat)) : forall e,
  noteSequenceSelectorDialog e <> None ->
  forEach (fun _ => listener showModal) l e
  = (Normal tt, fold_left (fun e' _ => showModalOutcome e') l e).
Proof.
  induction l as [|x l IH]; intros e Hd; [reflexivity|].
  cbn [forEach fold_left].
  rewrite (@bind_normal _ _ _ _ (@showModal_listener e Hd)).
  apply IH. now apply showModalOutcome_dialog.
Qed.

Lemma closeDialog_twice d : closeDialog (closeDialog d) = closeDialog d.
Proof. unfold closeDialog. now destruct (isOpen d) eqn:E; simpl; rewrite ?E. Qed.

Lemma close_listeners_run (l : list (ListenerTarget * nat)) : forall e,
  noteSequenceSelectorDialog e <> None ->
  l <> [] ->
  forEach (fun _ => listener close) l e
  = (Normal tt,
     setDialog (option_map closeDialog (noteSequenceSelectorDialog e)) e).
Proof.
  induction l as [|x l IH]; intros e Hd Hl; [congruence|].
  destruct (noteSequenceSelectorDialog e) as [d|] eqn:Ed; [|congruence].
  assert (H1 : listener close e
               = (Normal tt, setDialog (Some (closeDialog d)) e)).
  { unfold listener, close. now rewrite Ed. }
  cbn [forEach]. rewrite (@bind_normal _ _ _ _ H1).
  destruct l as [|y l'].
  - reflexivity.
  - rewrite IH by (simpl; discriminate).
    cbn [noteSequenceSelectorDialog setDialog option_map].
    now rewrite setDialog_twice, closeDialog_twice.
Qed.

Lemma clickButton_flat e :
  noteSequenceSelectorDialog e <> None ->
  clickButton e = (Normal tt, clickButtonOutcome e).
Proof.
  intros Hd. unfold clickButton, clickButtonOutcome.
  now apply showModal_listeners_run.
Qed.

Lemma clickClose_flat e :
  noteSequenceSelectorDialog e <> None ->
  clickClose e = (Normal tt, clickCloseOutcome e).
Proof.
  intros Hd. unfold clickClose, clickCloseOutcome.
  destruct (bound CloseClick e) eqn:El; [reflexivity|].
  apply close_listeners_run; [exact Hd | discriminate].
Qed.

Lemma changeCheckbox_flat e checked :
  toggleMoreInfoCheckbox e <> None ->
  changeCheckbox checked e = (Normal tt, changeCheckboxOutcome checked e).
Proof.
  intros Hx. unfold changeCheckboxOutcome.
  destruct (bound CheckboxChange e) eqn:El.
  - rewrite changeCheckbox_unbound by exact El.
    destruct (toggleMoreInfoCheckbox e); [reflexivity | congruence].
  - apply changeCheckbox_bound; [exact Hx | rewrite El; discriminate].
Qed.

Lemma disconnected_flat e :
  disconnectedCallback e = (Normal tt, disconnectOutcome e).
Proof.
  unfold disconnectedCallback, disconnectOutcome.
  now destruct (abortController e).
Qed.

Lemma assign_flat e k :
  noteSequenceSelectorButton e <> None ->
  Rev1.run c fuel (AssignKey k) e = (Normal tt, assignOutcome c k e).
Proof.
  intros Hb. unfold assignOutcome.
  destruct k as [| |s]; try (apply assign_clear; auto; lia).
  destruct (String.eqb_spec s "") as [->|Hs].
  - apply assign_clear; auto; lia.
  - now apply assign_select.
Qed.

Ltac intact_goal :=
  unfold intact, optionsFromCatalog in *;
  cbn [attribute noteSequenceSelectorButton noteSequenceSelectorDialog
         noteSequencesContainer toggleMoreInfoCheckbox abortController
         selectedNoteSequenceThemeKey selectedNoteSequenceTheme
         closeDialogButton listeners nextSignal dispatched console reported
         calls isConnected setConnected setAttr setButton setDialog setContainer
         setCheckbox
         newAbortController setKey setTheme setListeners pushDispatched
         pushConsole pushReported pushCall written stored reselectOutcome].

Lemma setConnected_intact b e : intact c e -> intact c (setConnected b e).
Proof.
  intros (B & D & G & X & Cl & A & T & O & R & L & S).
  intact_goal. repeat split; auto.
Qed.

Lemma removed_intact e : intact c e -> intact c (removed e).
Proof.
  intros (B & D & G & X & Cl & A & T & O & R & L & S).
  unfold removed. intact_goal. repeat split; auto.
  destruct (noteSequenceSelectorDialog e); simpl; congruence.
Qed.

(** The later revision on an intact element, operation by operation. *)
Lemma run_flat e op :
  intact c e ->
  Rev1.run c fuel op e = (Normal tt, stepOutcome c op e).
Proof.
  intros He. pose proof (intact_button He) as Hb.
  pose proof He as (_ & D & _ & X & _ & _ & _ & O & _).
  destruct op as [v| |k|random| | | | |checked|g o]; cbn [stepOutcome].
  - now apply host_set.
  - apply host_remove; auto; lia.
  - now apply assign_flat.
  - apply (@assign_flat e (randomKey c random) Hb).
  - cbn [Rev1.run]. unfold insertedIntoDocument. rewrite bind_modify.
    unfold listener. now rewrite connect_intact by now apply setConnected_intact.
  - cbn [Rev1.run]. unfold removedFromDocument. rewrite bind_modify.
    unfold listener. fold (removed e). now rewrite disconnected_flat.
  - now apply clickButton_flat.
  - now apply clickClose_flat.
  - now apply changeCheckbox_flat.
  - cbn [Rev1.run]. unfold clickOptionOutcome.
    destruct (optionAt g o e) as [opt|] eqn:Ho; [|reflexivity].
    pose proof (@optionAt_from_catalog c e g o opt O Ho) as Hl.
    pose proof (keysTruthy_lookup Hkeys Hl) as Hk.
    unfold listener. now rewrite click_option.
Qed.

Lemma reflected_truthy s : s <> "" -> reflected (Val s) = Some s.
Proof. intros Hs. unfold reflected. now rewrite (nonempty_eqb Hs). Qed.

Lemma reflected_falsy k : truthyString k = false -> reflected k = None.
Proof.
  destruct k as [| |s]; try reflexivity. simpl. now destruct (s =? "").
Qed.

Lemma select_intact e s :
  intact c e -> s <> "" -> intact c (selectOutcome c s e).
Proof.
  intros (B & D & G & X & Cl & A & T & O & R & L & S) Hs.
  unfold selectOutcome.
  destruct (attrEq (attribute e) (Some s)); intact_goal;
    rewrite (reflected_truthy Hs), (resolved_truthy c Hs);
    repeat split; auto.
Qed.

Lemma clear_intact e k :
  intact c e -> truthyString k = false -> intact c (clearOutcome k e).
Proof.
  intros (B & D & G & X & Cl & A & T & O & R & L & S) Hk.
  unfold clearOutcome.
  destruct (attribute e) eqn:Ea; intact_goal;
    rewrite ?(reflected_falsy _ Hk), ?(resolved_falsy c _ Hk), ?Ea;
    repeat split; auto.
Qed.

Lemma assign_intact e k : intact c e -> intact c (assignOutcome c k e).
Proof.
  intros He. unfold assignOutcome.
  destruct k as [| |s]; try (now apply clear_intact).
  destruct (String.eqb_spec s "") as [->|Hs].
  - now apply clear_intact.
  - now apply select_intact.
Qed.

Lemma host_set_intact e v : intact c e -> intact c (hostSetOutcome c v e).
Proof.
  intros He. unfold hostSetOutcome.
  destruct (attrEq (attribute e) (Some v)); [exact He|].
  destruct He as (B & D & G & X & Cl & A & T & O & R & L & S).
  destruct (String.eqb_spec v "") as [->|Hv].
  - unfold clearOutcome. intact_goal. repeat split; auto.
  - intact_goal. rewrite (reflected_truthy Hv), (resolved_truthy c Hv).
    repeat split; auto.
Qed.

Lemma host_remove_intact e : intact c e -> intact c (hostRemoveOutcome e).
Proof.
  intros He. unfold hostRemoveOutcome.
  destruct (attribute e); [|exact He].
  destruct He as (B & D & G & X & Cl & A & T & O & R & L & S).
  intact_goal. repeat split; auto.
Qed.

Lemma click_intact e g o : intact c e -> intact c (clickOptionOutcome c g o e).
Proof.
  intros He. unfold clickOptionOutcome.
  destruct (optionAt g o e) as [opt|] eqn:Ho; [|exact He].
  pose proof He as (B & D & G & X & Cl & A & T & O & R & L & S).
  pose proof (@optionAt_from_catalog c e g o opt O Ho) as Hl.
  pose proof (keysTruthy_lookup Hkeys Hl) as Hk.
  assert (Ht : themeOf c (optionKey opt) = Val (optionTheme opt)).
  { unfold themeOf. now rewrite Hl. }
  unfold clickOutcome. cbv zeta.
  destruct (attrEq (attribute e) (Some (optionKey opt))); intact_goal;
    rewrite (reflected_truthy Hk), (resolved_truthy c Hk), Ht;
    repeat split; auto; try discriminate;
    destruct (noteSequenceSelectorDialog e); simpl; congruence.
Qed.

Lemma connect_outcome_intact e : intact c e -> intact c (connectOutcome c e).
Proof.
  intros (B & D & G & X & Cl & A & T & O & R & L & S).
  unfold connectOutcome, attachListeners. intact_goal.
  repeat split; auto; try discriminate.
  - now apply builtGroups_options.
  - apply Forall_app. split.
    + eapply Forall_impl; [|exact L]. intros l Hl. simpl in *. lia.
    + repeat constructor.
  - intros s Hs. inversion Hs. lia.
Qed.

Lemma disconnect_intact e : intact c e -> intact c (disconnectOutcome e).
Proof.
  intros He. unfold disconnectOutcome.
  destruct (abortController e) as [signal|] eqn:Es; [|exact He].
  destruct He as (B & D & G & X & Cl & A & T & O & R & L & S).
  intact_goal. repeat split; auto.
  apply Forall_forall. intros l Hl. apply filter_In in Hl.
  rewrite Forall_forall in L. now apply L.
Qed.

Lemma showModal_intact e : intact c e -> intact c (showModalOutcome e).
Proof.
  intros He. unfold showModalOutcome.
  destruct (noteSequenceSelectorDialog e) as [d|] eqn:Ed; [|exact He].
  destruct (isOpen d && isModal d); [exact He|].
  destruct He as (B & D & G & X & Cl & A & T & O & R & L & S).
  destruct (isOpen d || negb (isConnected e)); intact_goal;
    repeat split; auto; try discriminate.
  apply Forall_app. split; [exact R | repeat constructor].
Qed.

Lemma clickButton_intact e : intact c e -> intact c (clickButtonOutcome e).
Proof.
  unfold clickButtonOutcome. generalize (bound ButtonClick e).
  intros l. revert e. induction l as [|x l IH]; intros e He; [exact He|].
  cbn [fold_left]. apply IH. now apply showModal_intact.
Qed.

Lemma clickClose_intact e : intact c e -> intact c (clickCloseOutcome e).
Proof.
  intros He. unfold clickCloseOutcome.
  destruct (bound CloseClick e); [exact He|].
  destruct He as (B & D & G & X & Cl & A & T & O & R & L & S).
  intact_goal. repeat split; auto.
  destruct (noteSequenceSelectorDialog e); simpl; congruence.
Qed.

Lemma changeCheckbox_intact e checked :
  intact c e -> intact c (changeCheckboxOutcome checked e).
Proof.
  intros (B & D & G & X & Cl & A & T & O & R & L & S).
  unfold changeCheckboxOutcome.
  destruct (bound CheckboxChange e); intact_goal;
    repeat split; auto; try discriminate.
  - destruct (noteSequencesContainer e); [discriminate | congruence].
  - destruct (noteSequencesContainer e); simpl; auto using options_toggle.
Qed.

Lemma step_intact e op : intact c e -> intact c (stepOutcome c op e).
Proof.
  intros He. destruct op; cbn [stepOutcome];
    auto using host_set_intact, host_remove_intact, assign_intact,
      connect_outcome_intact, disconnect_intact, clickButton_intact,
      clickClose_intact, changeCheckbox_intact, click_intact,
      setConnected_intact, removed_intact.
Qed.

Lemma constructed_intact : intact c constructed.
Proof.
  unfold intact, optionsFromCatalog. simpl.
  repeat split; try discriminate; constructor.
Qed.

Lemma fold_flat ops : forall e,
  intact c e ->
  fold_left (fun e op => exec (Rev1.run c fuel op) e) ops e
  = fold_left (fun e op => stepOutcome c op e) ops e
  /\ intact c (fold_left (fun e op => stepOutcome c op e) ops e).
Proof.
  induction ops as [|op ops IH]; intros e He; simpl; [auto|].
  unfold exec at 2. rewrite (run_flat op He). cbn [snd].
  apply IH. now apply step_intact.
Qed.

Lemma after_intact ops : intact c (after c fuel ops).
Proof.
  unfold after. destruct (fold_flat ops constructed_intact) as [E I].
  now rewrite E.
Qed.

End Intact.

(** ** The earlier revision, flat *)
Module Rev0Facts.
Import Selector Rev1Facts.
Section Facts.

Variable c : Catalog.

Local Abbreviation callback := (Rev0.attributeChangedCallback c).

Lemma callback_unfold0 fuel name old new :
  callback (S fuel) name old new
  = if attrEq old new then ret tt
    else if name =? observedAttribute then
      set_selectedNoteSequenceThemeKey c (callback fuel) (ofAttr new)
    else ret tt.
Proof. reflexivity. Qed.

Lemma setter_reselect0 fuel e s :
  1 <= fuel ->
  noteSequenceSelectorButton e <> None ->
  s <> "" ->
  attribute e = Some s ->
  set_selectedNoteSequenceThemeKey c (callback fuel) (Val s) e
  = (Normal tt, reselectOutcome c s e).
Proof.
  intros Hf Hb Hs Ha.
  destruct fuel as [|fuel]; try lia.
  rewrite setter_body by exact Hb.
  rewrite (resolved_truthy c Hs), reflect_truthy by exact Hs.
  unfold react. rewrite Ha, rev0_callback_same. reflexivity.
Qed.

Lemma setter_select0 fuel e s :
  2 <= fuel ->
  noteSequenceSelectorButton e <> None ->
  s <> "" ->
  set_selectedNoteSequenceThemeKey c (callback fuel) (Val s) e
  = (Normal tt, rev0SelectOutcome c s e).
Proof.
  intros Hf Hb Hs.
  destruct fuel as [|fuel]; try lia.
  rewrite setter_body by exact Hb.
  rewrite (resolved_truthy c Hs), reflect_truthy by exact Hs.
  unfold rev0SelectOutcome, react. rewrite callback_unfold0.
  destruct (attrEq (attribute e) (Some s)) eqn:Ea; [reflexivity|].
  rewrite String.eqb_refl. cbn [ofAttr].
  rewrite setter_reselect0 by (simpl; auto; try discriminate; lia).
  reflexivity.
Qed.

Lemma setter_clear0 fuel e k :
  1 <= fuel ->
  noteSequenceSelectorButton e <> None ->
  truthyString k = false ->
  set_selectedNoteSequenceThemeKey c (callback fuel) k e
  = (Normal tt, rev0ClearOutcome k e).
Proof.
  intros Hf Hb Hk.
  destruct fuel as [|fuel]; try lia.
  rewrite setter_body by exact Hb.
  rewrite (resolved_falsy c _ Hk), reflect_falsy by exact Hk.
  unfold rev0ClearOutcome.
  destruct (attribute e) as [old|] eqn:Ea; [|reflexivity].
  unfold react. rewrite callback_unfold0. cbn [attrEq ofAttr].
  rewrite String.eqb_refl.
  rewrite setter_body by (simpl; discriminate).
  rewrite reflect_falsy by reflexivity.
  reflexivity.
Qed.

Lemma host_set0 fuel e v :
  2 <= fuel ->
  noteSequenceSelectorButton e <> None ->
  Rev0.run c fuel (HostSetAttribute v) e = (Normal tt, rev0HostSetOutcome c v e).
Proof.
  intros Hf Hb. destruct fuel as [|[|fuel]]; try lia.
  unfold Rev0.run, setAttribute, react, rev0HostSetOutcome.
  rewrite callback_unfold0.
  destruct (attrEq (attribute e) (Some v)) eqn:Ea.
  - apply attrEq_true in Ea. cbn [ret]. rewrite <- Ea. now rewrite setAttr_same.
  - rewrite String.eqb_refl. cbn [ofAttr].
    destruct (String.eqb_spec v "") as [->|Hv].
    + now rewrite setter_clear0 by (simpl; auto; lia).
    + now rewrite setter_reselect0 by (simpl; auto; lia).
Qed.

Lemma host_remove0 fuel e :
  1 <= fuel ->
  noteSequenceSelectorButton e <> None ->
  Rev0.run c fuel HostRemoveAttribute e
  = (Normal tt,
     match attribute e with
     | None => e
     | Some _ => stored Null Null (setAttr None e)
     end).
Proof.
  intros Hf Hb. destruct fuel as [|fuel]; try lia.
  unfold Rev0.run, removeAttribute.
  destruct (attribute e) as [old|] eqn:Ea; [|reflexivity].
  unfold react. rewrite callback_unfold0. cbn [attrEq ofAttr].
  rewrite String.eqb_refl.
  rewrite setter_body by (simpl; auto).
  rewrite reflect_falsy by reflexivity. cbn [attribute setAttr].
  reflexivity.
Qed.

Lemma click_option0 fuel e o :
  2 <= fuel ->
  noteSequenceSelectorButton e <> None ->
  noteSequenceSelectorDialog e <> None ->
  optionKey o <> "" ->
  Rev0.optionClick (callback fuel) o e = (Normal tt, rev0ClickOutcome c o e).
Proof.
  intros Hf Hb Hd Hk. destruct fuel as [|[|fuel]]; try lia.
  unfold Rev0.optionClick, rev0ClickOutcome. cbv zeta.
  unfold bind at 1. unfold modify at 1.
  unfold bind at 1. unfold modify at 1.
  unfold bind at 1. unfold updateNoteSequenceSelectorButtonText at 1.
  cbn [noteSequenceSelectorButton setTheme setKey selectedNoteSequenceTheme].
  destruct (noteSequenceSelectorButton e) as [b|] eqn:Eb; [|congruence].
  unfold bind at 1. unfold updateSelectedNoteSequenceAttribute.
  cbn [selectedNoteSequenceThemeKey setButton setTheme setKey].
  rewrite (nonempty_eqb Hk). cbn [negb].
  unfold setAttribute, react. rewrite callback_unfold0.
  cbn [attribute setButton setTheme setKey].
  destruct (attrEq (attribute e) (Some (optionKey o))) eqn:Ea.
  - cbn [ret]. unfold bind, Rev0.dispatchNoteSequenceSelectedEvent,
      dispatchEvent, modify, close.
    cbn [noteSequenceSelectorDialog pushDispatched setAttr setButton setTheme
           setKey].
    destruct (noteSequenceSelectorDialog e); [reflexivity | congruence].
  - rewrite String.eqb_refl. cbn [ofAttr].
    rewrite setter_reselect0 by (simpl; auto; try discriminate; lia).
    unfold bind, Rev0.dispatchNoteSequenceSelectedEvent, dispatchEvent,
      modify, close.
    cbn [noteSequenceSelectorDialog pushDispatched reselectOutcome stored
           written pushCall setAttr setButton setTheme setKey].
    destruct (noteSequenceSelectorDialog e); [reflexivity | congruence].
Qed.

End Facts.
End Rev0Facts.

Lemma demo_wellFormed : wellFormed demo.
Proof.
  split; [exact demo_keysTruthy | split;
    [exact demo_groupsPresent | exact demo_flattened]].
Qed.

(** ** What every sequence of operations keeps *)
Section Always.
Import Selector Rev1Facts.

Lemma after_flat c fuel ops :
  wellFormed c -> 2 <= fuel ->
  after c fuel ops = fold_left (fun e op => stepOutcome c op e) ops constructed
  /\ intact c (after c fuel ops).
Proof.
  intros (Hk & Hg & Hf) Hfuel. split.
  - unfold after.
    now destruct (@fold_flat c Hk Hg Hf fuel Hfuel ops constructed
                    (constructed_intact c)).
  - exact (@after_intact c Hk Hg Hf fuel Hfuel ops).
Qed.

(** Only a click on the trigger can add to the reported exceptions. *)
Lemma step_reported c op e :
  op <> ClickButton -> reported (stepOutcome c op e) = reported e.
Proof.
  intros Hop.
  destruct op as [v| |k|random| | | | |checked|g o]; cbn [stepOutcome];
    try congruence;
    unfold hostSetOutcome, hostRemoveOutcome, assignOutcome, selectOutcome,
      clearOutcome, reselectOutcome, connectOutcome, disconnectOutcome,
      removed, clickCloseOutcome, changeCheckboxOutcome, clickOptionOutcome,
      clickOutcome;
    repeat match goal with
           | |- context [match ?x with _ => _ end] => destruct x
           end;
    reflexivity.
Qed.

(** X2: on an element made by the constructor no sequence of operations ever
    throws to the page or exhausts the bound on nested attribute reactions:
    every operation completes normally, and the element reached is the same
    for every bound of at least two nested [attributeChangedCallback] calls
    (the setter and the callback stop calling each other after two rounds).
    The only exception that a callback or a listener ever leaves to be
    reported is the [InvalidStateError] of [showModal()], and only a click on
    the trigger can add one: every other operation reports nothing. *)
Theorem operations_always_complete (c : Catalog) (fuel : nat)
    (ops : list Op) (op : Op) :
  wellFormed c ->
  2 <= fuel ->
  completion (Rev1.run c fuel op) (after c fuel ops) = Normal tt
  /\ Forall (fun x => x = InvalidStateError)
            (reported (exec (Rev1.run c fuel op) (after c fuel ops)))
  /\ (op <> ClickButton ->
      reported (exec (Rev1.run c fuel op) (after c fuel ops))
      = reported (after c fuel ops))
  /\ after c fuel ops = after c 2 ops.
Proof.
  intros Hc Hfuel. pose proof Hc as (Hk & Hg & Hf).
  destruct (@after_flat c fuel ops Hc Hfuel) as [E I].
  destruct (@after_flat c 2 ops Hc (le_n 2)) as [E2 _].
  unfold completion, exec.
  rewrite (@run_flat c Hk Hg fuel Hfuel _ op I). cbn [fst snd].
  split; [reflexivity | split; [|split; [|congruence]]].
  - pose proof (@step_intact c Hk Hf fuel Hfuel _ op I) as I'.
    now destruct I' as (_ & _ & _ & _ & _ & _ & _ & _ & R & _).
  - apply step_reported.
Qed.

Lemma operations_always_complete_witness :
  completion (Rev1.run demo 5 (AssignKey (Val "")))
             (after demo 5 [Connect; HostSetAttribute "lydian"; ClickOption 0 1])
  = Normal tt
  /\ reported (exec (Rev1.run demo 5 (AssignKey (Val "")))
                    (after demo 5 [Connect; HostSetAttribute "lydian";
                                   ClickOption 0 1]))
     = reported (after demo 5 [Connect; HostSetAttribute "lydian";
                               ClickOption 0 1])
  /\ after demo 5 [Connect; HostSetAttribute "lydian"; ClickOption 0 1]
     = after demo 2 [Connect; HostSetAttribute "lydian"; ClickOption 0 1].
Proof.
  destruct (@operations_always_complete demo 5
              [Connect; HostSetAttribute "lydian"; ClickOption 0 1]
              (AssignKey (Val "")) demo_wellFormed) as (C & _ & R & E).
  - lia.
  - split; [exact C | split; [apply R; discriminate | exact E]].
Defined.

(** The [InvalidStateError] does occur: a dialog left open by a detach is no
    longer modal, and the next click on the trigger of the re-attached
    element throws in [showModal()]. *)
Example stale_dialog_reports :
  reported (after demo 2 [Connect; ClickButton; Disconnect; Connect;
                          ClickButton])
  = [InvalidStateError].
Proof. vm_compute. reflexivity. Qed.

(** X3: between operations the host attribute always mirrors the stored key:
    it is present, holding the key, exactly when the stored key is a non-empty
    string, and absent when the stored key is [null], [undefined] or the empty
    string. *)
Theorem attribute_always_reflects_key (c : Catalog) (fuel : nat)
    (ops : list Op) :
  keysTruthy c ->
  flattened c ->
  2 <= fuel ->
  attribute (after c fuel ops)
  = reflected (selectedNoteSequenceThemeKey (after c fuel ops))
  /\ (forall s, attribute (after c fuel ops) = Some s
                <-> selectedNoteSequenceThemeKey (after c fuel ops) = Val s
                    /\ s <> "").
Proof.
  intros Hk Hf Hfuel.
  pose proof (@after_settled c Hk Hf fuel Hfuel ops) as He.
  split.
  - now destruct He as (_ & _ & A & _).
  - intros s. exact (@settled_attribute c _ s He).
Qed.

Lemma attribute_always_reflects_key_witness :
  attribute (after demo 2 [AssignKey (Val "dorian"); Connect;
                           AssignKey (Val "")])
  = reflected (selectedNoteSequenceThemeKey
                 (after demo 2 [AssignKey (Val "dorian"); Connect;
                                AssignKey (Val "")])).
Proof.
  apply (@attribute_always_reflects_key demo 2
           [AssignKey (Val "dorian"); Connect; AssignKey (Val "")]
           demo_keysTruthy demo_flattened (le_n 2)).
Defined.

(** X4: between operations the stored theme is always what the setter
    resolves the stored key to: the catalog's record for a key of the catalog,
    the inherited member for the name of one ("constructor", "toString",
    ...), [undefined] for any other unknown non-empty key, and [null] for
    [null], [undefined] and the empty string.  No sequence of attribute
    writes, assignments and clicks leaves a record that belongs to another
    key. *)
Theorem theme_always_resolves_key (c : Catalog) (fuel : nat) (ops : list Op) :
  wellFormed c ->
  2 <= fuel ->
  selectedNoteSequenceTheme (after c fuel ops)
  = resolved c (selectedNoteSequenceThemeKey (after c fuel ops)).
Proof.
  intros Hc Hfuel. destruct (@after_flat c fuel ops Hc Hfuel) as [_ I].
  now destruct I as (_ & _ & _ & _ & _ & _ & T & _).
Qed.

Lemma theme_always_resolves_key_witness :
  selectedNoteSequenceTheme
    (after demo 2 [Connect; ClickOption 0 2; HostSetAttribute "constructor"])
  = resolved demo
      (selectedNoteSequenceThemeKey
         (after demo 2 [Connect; ClickOption 0 2;
                        HostSetAttribute "constructor"])).
Proof.
  apply (@theme_always_resolves_key demo 2
           [Connect; ClickOption 0 2; HostSetAttribute "constructor"]
           demo_wellFormed (le_n 2)).
Defined.

(** The three kinds of non-empty key, resolved on the demonstration
    catalog. *)
Example resolved_kinds :
  resolved demo (Val "dorian") = Val dorian
  /\ resolved demo (Val "constructor") = Val (InheritedMember "constructor")
  /\ resolved demo (Val "lydian") = Undefined.
Proof. repeat split. Qed.

(** X5: between operations the trigger button always shows the stored theme:
    its primary name when a record is stored, the empty text when an
    inherited member is stored (it is truthy and has no [primaryName]), and
    ["Select Sequence"] otherwise (also for an unknown key whose lookup is
    [undefined]). *)
Theorem label_always_shows_theme (c : Catalog) (fuel : nat) (ops : list Op) :
  wellFormed c ->
  2 <= fuel ->
  noteSequenceSelectorButton (after c fuel ops)
  = Some (match selectedNoteSequenceTheme (after c fuel ops) with
          | Val (ThemeRecord t) => primaryName t
          | Val (InheritedMember _) => ""
          | _ => "Select Sequence"
          end).
Proof.
  intros Hc Hfuel. destruct (@after_flat c fuel ops Hc Hfuel) as [_ I].
  now destruct I as (B & _).
Qed.

Lemma label_always_shows_theme_witness :
  noteSequenceSelectorButton
    (after demo 2 [HostSetAttribute "phrygian"; Connect])
  = Some "Phrygian"
  /\ noteSequenceSelectorButton
       (after demo 2 [Connect; HostSetAttribute "toString"])
     = Some "".
Proof.
  split.
  - pose proof (@label_always_shows_theme demo 2
                  [HostSetAttribute "phrygian"; Connect]
                  demo_wellFormed (le_n 2)) as H.
    assert (T : selectedNoteSequenceTheme
                  (after demo 2 [HostSetAttribute "phrygian"; Connect])
                = Val phrygian) by (vm_compute; reflexivity).
    rewrite T in H. exact H.
  - pose proof (@label_always_shows_theme demo 2
                  [Connect; HostSetAttribute "toString"]
                  demo_wellFormed (le_n 2)) as H.
    assert (T : selectedNoteSequenceTheme
                  (after demo 2 [Connect; HostSetAttribute "toString"])
                = Val (InheritedMember "toString"))
      by (vm_compute; reflexivity).
    rewrite T in H. exact H.
Defined.

End Always.

(** ** Attaching and detaching *)
Section Lifecycle.
Import Selector Rev1Facts.

Lemma connect_flat c fuel ops :
  wellFormed c -> 2 <= fuel ->
  let e := after c fuel ops in
  intact c e
  /\ exec (Rev1.run c fuel Connect) e = connectOutcome c (setConnected true e)
  /\ intact c (connectOutcome c (setConnected true e)).
Proof.
  intros Hc Hfuel e. pose proof Hc as (Hk & Hg & Hf).
  destruct (@after_flat c fuel ops Hc Hfuel) as [_ I]. fold e in I.
  split; [exact I | split].
  - unfold exec. now rewrite (@run_flat c Hk Hg fuel Hfuel e Connect I).
  - exact (@step_intact c Hk Hf fuel Hfuel e Connect I).
Qed.

(** X6: attaching the element, in whatever state a sequence of operations
    left it, binds exactly three listeners (trigger click, close click,
    checkbox change) under one fresh abort signal, replaces the list by one
    block per group of the catalog in the catalog's order with one option per
    theme of the group, and leaves the selection alone: the attribute, the
    stored key and theme and the label are unchanged and no event is
    dispatched. *)
Theorem attach_binds_and_builds (c : Catalog) (fuel : nat) (ops : list Op) :
  wellFormed c ->
  2 <= fuel ->
  let e := after c fuel ops in
  let e' := exec (Rev1.run c fuel Connect) e in
  listeners e' = listeners e ++ attachListeners (nextSignal e)
  /\ abortController e' = Some (nextSignal e)
  /\ noteSequencesContainer e'
     = Some (map (fun gm =>
                    groupDiv (snd gm)
                             (match lookup (fst gm) (noteSequenceThemes c) with
                              | Some g => g
                              | None => []
                              end))
                 (noteSequenceThemeGroupsMetadata c))
  /\ attribute e' = attribute e
  /\ selectedNoteSequenceThemeKey e' = selectedNoteSequenceThemeKey e
  /\ selectedNoteSequenceTheme e' = selectedNoteSequenceTheme e
  /\ noteSequenceSelectorButton e' = noteSequenceSelectorButton e
  /\ dispatched e' = dispatched e.
Proof.
  intros Hc Hfuel e e'. pose proof Hc as (Hk & Hg & Hf).
  destruct (@connect_flat c fuel ops Hc Hfuel) as (I & E & _).
  fold e in I, E. subst e'. rewrite E.
  destruct (builtGroups_complete c Hg) as [_ Hb].
  destruct I as (B & _).
  unfold connectOutcome. simpl. rewrite Hb, B. repeat split.
Qed.

Lemma attach_binds_and_builds_witness :
  let e := after demo 2 [AssignKey (Val "dorian")] in
  let e' := exec (Rev1.run demo 2 Connect) e in
  listeners e' = [(ButtonClick, 0); (CloseClick, 0); (CheckboxChange, 0)]
  /\ selectedNoteSequenceThemeKey e' = Val "dorian"
  /\ dispatched e' = dispatched e.
Proof.
  intros e e'.
  destruct (@attach_binds_and_builds demo 2 [AssignKey (Val "dorian")]
              demo_wellFormed (le_n 2))
    as (L & _ & _ & _ & K & _ & _ & D).
  fold e in L, K, D. fold e' in L, K, D.
  split; [|split; [|exact D]].
  - rewrite L. vm_compute. reflexivity.
  - rewrite K. vm_compute. reflexivity.
Defined.

(** X7: the list is always built collapsed.  After attaching, every "more
    info" panel is hidden whatever the checkbox shows, and the checkbox is
    left as it was: re-attaching an element whose box is checked gives
    collapsed panels under a checked box. *)
Theorem attach_collapses_panels (c : Catalog) (fuel : nat) (ops : list Op) :
  wellFormed c ->
  2 <= fuel ->
  let e := after c fuel ops in
  let e' := exec (Rev1.run c fuel Connect) e in
  Forall (fun p => hidden p = true) (moreInfoElements e')
  /\ toggleMoreInfoCheckbox e' = toggleMoreInfoCheckbox e.
Proof.
  intros Hc Hfuel e e'.
  destruct (@connect_flat c fuel ops Hc Hfuel) as (_ & E & _).
  fold e in E. subst e'. rewrite E.
  unfold connectOutcome, moreInfoElements. simpl.
  split; [apply builtGroups_hidden | reflexivity].
Qed.

Lemma attach_collapses_panels_witness :
  let e := after demo 2 [Connect; ChangeCheckbox true; Disconnect] in
  let e' := exec (Rev1.run demo 2 Connect) e in
  toggleMoreInfoCheckbox e' = Some true
  /\ moreInfoElements e' <> []
  /\ Forall (fun p => hidden p = true) (moreInfoElements e').
Proof.
  intros e e'.
  destruct (@attach_collapses_panels demo 2
              [Connect; ChangeCheckbox true; Disconnect]
              demo_wellFormed (le_n 2)) as (H & X).
  fold e in H, X. fold e' in H, X.
  split; [|split; [|exact H]].
  - rewrite X. vm_compute. reflexivity.
  - vm_compute. discriminate.
Defined.

Lemma filter_attach signal (ls : list (ListenerTarget * nat)) :
  Forall (fun l => snd l < signal) ls ->
  filter (fun l => negb (snd l =? signal)%nat) (ls ++ attachListeners signal)
  = ls.
Proof.
  intros H. rewrite filter_app. unfold attachListeners. cbn [filter snd].
  rewrite Nat.eqb_refl. cbn [negb]. rewrite app_nil_r.
  induction H as [|l ls Hl _ IH]; cbn [filter]; [reflexivity|].
  destruct (Nat.eqb_spec (snd l) signal); [lia|].
  cbn [negb]. now rewrite IH.
Qed.

(** X8: detaching takes away the three listeners that the attach bound under
    its abort signal (trigger click, close click, checkbox change), and only
    those.  After an attach followed by a detach the listeners on those three
    nodes are those of before; and if none was bound before, changing the
    checkbox no longer touches the list and clicking the trigger does nothing
    to the dialog.  The click listeners of the options were registered
    without the signal and survive: the list stays as the attach built it,
    and a click on an option of the detached element still stores the
    option's key, reflects it in the attribute and dispatches the event
    (unless the attribute already holds the key). *)
Theorem detach_unbinds (c : Catalog) (fuel : nat) (ops : list Op) :
  wellFormed c ->
  2 <= fuel ->
  let e := after c fuel ops in
  let e1 := exec (Rev1.run c fuel Disconnect)
                 (exec (Rev1.run c fuel Connect) e) in
  listeners e1 = listeners e
  /\ (listeners e = [] ->
      forall checked,
        noteSequencesContainer (exec (Rev1.run c fuel (ChangeCheckbox checked)) e1)
        = noteSequencesContainer e1
        /\ noteSequenceSelectorDialog (exec (Rev1.run c fuel ClickButton) e1)
           = noteSequenceSelectorDialog e1)
  /\ noteSequencesContainer e1
     = noteSequencesContainer (exec (Rev1.run c fuel Connect) e)
  /\ (forall g o opt,
        optionAt g o e1 = Some opt ->
        let e2 := exec (Rev1.run c fuel (ClickOption g o)) e1 in
        selectedNoteSequenceThemeKey e2 = Val (optionKey opt)
        /\ attribute e2 = Some (optionKey opt)
        /\ dispatched e2
           = dispatched e1
             ++ (if attrEq (attribute e1) (Some (optionKey opt)) then []
                 else [detailOf c (optionKey opt)])).
Proof.
  intros Hc Hfuel e e1. pose proof Hc as (Hk & Hg & Hf).
  destruct (@connect_flat c fuel ops Hc Hfuel) as (I & E & I').
  fold e in I, E, I'.
  assert (E1 : e1 = disconnectOutcome
                      (removed (connectOutcome c (setConnected true e)))).
  { subst e1. rewrite E. unfold exec.
    now rewrite (@run_flat c Hk Hg fuel Hfuel _ Disconnect I'). }
  assert (I1 : intact c e1).
  { rewrite E1. apply disconnect_intact, removed_intact. exact I'. }
  assert (L : listeners e1 = listeners e).
  { rewrite E1. unfold disconnectOutcome, removed, connectOutcome. simpl.
    apply filter_attach.
    now destruct I as (_ & _ & _ & _ & _ & _ & _ & _ & _ & L & _). }
  split; [exact L|]. split; [|split].
  - intros Hnil checked.
    assert (Hb : forall t, bound t e1 = []).
    { intros t. unfold bound. rewrite L, Hnil. reflexivity. }
    unfold exec.
    rewrite (@run_flat c Hk Hg fuel Hfuel _ (ChangeCheckbox checked) I1).
    rewrite (@run_flat c Hk Hg fuel Hfuel _ ClickButton I1).
    cbn [snd stepOutcome]. unfold changeCheckboxOutcome, clickButtonOutcome.
    rewrite !Hb. split; reflexivity.
  - rewrite E1, E. unfold disconnectOutcome, removed, connectOutcome.
    reflexivity.
  - intros g o opt Ho e2. subst e2. unfold exec.
    rewrite (@run_flat c Hk Hg fuel Hfuel _ (ClickOption g o) I1).
    cbn [snd stepOutcome]. unfold clickOptionOutcome. rewrite Ho.
    destruct (clickOutcome_fields c opt e1) as (K & _ & A & _ & _ & _ & D).
    auto.
Qed.

Lemma detach_unbinds_witness :
  let e1 := exec (Rev1.run demo 2 Disconnect)
                 (exec (Rev1.run demo 2 Connect) (after demo 2 [])) in
  let e2 := exec (Rev1.run demo 2 (ClickOption 0 1)) e1 in
  listeners e1 = []
  /\ noteSequencesContainer (exec (Rev1.run demo 2 (ChangeCheckbox true)) e1)
     = noteSequencesContainer e1
  /\ selectedNoteSequenceThemeKey e2 = Val "dorian"
  /\ dispatched e2
     = [{| noteSequenceThemeKey := Val "dorian";
           noteSequenceTheme := Val dorian |}].
Proof.
  intros e1 e2.
  destruct (@detach_unbinds demo 2 [] demo_wellFormed (le_n 2))
    as (L & H & _ & O).
  fold e1 in L, H, O.
  assert (Ho : optionAt 0 1 e1 = Some (noteSequenceDiv ("dorian", dorian)))
    by (vm_compute; reflexivity).
  destruct (O 0 1 _ Ho) as (K & _ & D). fold e2 in K, D.
  assert (Hd : dispatched e1 = []) by (vm_compute; reflexivity).
  assert (Ha : attribute e1 = None) by (vm_compute; reflexivity).
  rewrite Hd, Ha in D.
  split; [exact L | split; [exact (proj1 (H eq_refl true)) | split]].
  - exact K.
  - exact D.
Defined.

(** What the click listeners of the trigger do, all together. *)
Lemma showModal_all_return l : forall e d,
  noteSequenceSelectorDialog e = Some d ->
  isOpen d && isModal d = true ->
  fold_left (fun e' (_ : ListenerTarget * nat) => showModalOutcome e') l e = e.
Proof.
  induction l as [|x l IH]; intros e d Hd Hm; [reflexivity|].
  cbn [fold_left].
  assert (E : showModalOutcome e = e).
  { unfold showModalOutcome. now rewrite Hd, Hm. }
  rewrite E. now apply (IH e d).
Qed.

Lemma showModal_all_open l e d :
  noteSequenceSelectorDialog e = Some d ->
  isOpen d = false ->
  isConnected e = true ->
  l <> [] ->
  fold_left (fun e' (_ : ListenerTarget * nat) => showModalOutcome e') l e
  = setDialog (Some {| isOpen := true; isModal := true |}) e.
Proof.
  intros Hd Ho Hc Hl. destruct l as [|x l]; [congruence|].
  cbn [fold_left].
  assert (E : showModalOutcome e
              = setDialog (Some {| isOpen := true; isModal := true |}) e).
  { unfold showModalOutcome. now rewrite Hd, Ho, Hc. }
  rewrite E.
  now apply (@showModal_all_return l _ {| isOpen := true; isModal := true |}).
Qed.

Lemma showModal_all_throw l : forall e d,
  noteSequenceSelectorDialog e = Some d ->
  isOpen d && isModal d = false ->
  isOpen d || negb (isConnected e) = true ->
  let e' :=
    fold_left (fun e' (_ : ListenerTarget * nat) => showModalOutcome e') l e in
  noteSequenceSelectorDialog e' = Some d
  /\ reported e' = reported e ++ repeat InvalidStateError (length l).
Proof.
  induction l as [|x l IH]; intros e d Hd Hm Hc.
  - cbn. now rewrite app_nil_r.
  - cbn [fold_left length repeat].
    assert (E : showModalOutcome e = pushReported InvalidStateError e).
    { unfold showModalOutcome. now rewrite Hd, Hm, Hc. }
    rewrite E.
    destruct (IH (pushReported InvalidStateError e) d Hd Hm Hc) as [D R].
    split; [exact D|].
    rewrite R. cbn [reported pushReported]. now rewrite <- app_assoc.
Qed.

Lemma closeDialog_closed d : isOpen (closeDialog d) = false.
Proof. unfold closeDialog. now destruct (isOpen d) eqn:E. Qed.

(** X9: what the clicks do to the dialog, in whatever state a sequence of
    operations left the element.  A click on the trigger, when a listener is
    bound to it, opens the dialog as a modal if the dialog is closed and the
    element is in the document, and then reports nothing; it changes nothing
    if the dialog is already open as a modal; and if the dialog is open
    without being modal (a detach left it so) or the element is out of the
    document, [showModal()] throws: the dialog stays as it was and each bound
    listener leaves one [InvalidStateError] to be reported.  A click on the
    close button, when a listener is bound to it, leaves the dialog closed;
    and a click on an option leaves the dialog closed with the option's key
    stored and reflected in the attribute. *)
Theorem dialog_follows_clicks (c : Catalog) (fuel : nat) (ops : list Op) :
  wellFormed c ->
  2 <= fuel ->
  let e := after c fuel ops in
  let closed e' :=
    exists d', noteSequenceSelectorDialog e' = Some d' /\ isOpen d' = false in
  (forall d,
     noteSequenceSelectorDialog e = Some d ->
     bound ButtonClick e <> [] ->
     let e' := exec (Rev1.run c fuel ClickButton) e in
     (isOpen d = false -> isConnected e = true ->
      noteSequenceSelectorDialog e'
      = Some {| isOpen := true; isModal := true |}
      /\ reported e' = reported e)
     /\ (isOpen d && isModal d = true -> e' = e)
     /\ (isOpen d && isModal d = false ->
         isOpen d || negb (isConnected e) = true ->
         noteSequenceSelectorDialog e' = Some d
         /\ reported e'
            = reported e
              ++ repeat InvalidStateError (length (bound ButtonClick e))))
  /\ (bound CloseClick e <> [] ->
      closed (exec (Rev1.run c fuel ClickClose) e))
  /\ (forall g o opt,
        optionAt g o e = Some opt ->
        let e' := exec (Rev1.run c fuel (ClickOption g o)) e in
        closed e'
        /\ selectedNoteSequenceThemeKey e' = Val (optionKey opt)
        /\ attribute e' = Some (optionKey opt)).
Proof.
  intros Hc Hfuel e closed. pose proof Hc as (Hk & Hg & Hf).
  destruct (@after_flat c fuel ops Hc Hfuel) as [_ I]. fold e in I.
  assert (Hd : exists d, noteSequenceSelectorDialog e = Some d).
  { destruct I as (_ & D & _).
    destruct (noteSequenceSelectorDialog e) as [d|]; [eauto | congruence]. }
  destruct Hd as [d0 Hd0].
  unfold exec.
  rewrite (@run_flat c Hk Hg fuel Hfuel _ ClickButton I).
  rewrite (@run_flat c Hk Hg fuel Hfuel _ ClickClose I).
  cbn [snd stepOutcome]. unfold clickButtonOutcome, clickCloseOutcome.
  split; [|split].
  - intros d Hd Hb. cbv zeta. split; [|split].
    + intros Ho Hcn. rewrite (@showModal_all_open _ e d Hd Ho Hcn Hb).
      split; reflexivity.
    + intros Hm. now apply (@showModal_all_return _ e d).
    + intros Hm Hx. now apply showModal_all_throw.
  - intros Hb. unfold closed.
    destruct (bound CloseClick e); [congruence|].
    exists (closeDialog d0). cbn [noteSequenceSelectorDialog setDialog].
    rewrite Hd0. split; [reflexivity | apply closeDialog_closed].
  - intros g o opt Ho. cbv zeta.
    rewrite (@run_flat c Hk Hg fuel Hfuel _ (ClickOption g o) I).
    cbn [snd stepOutcome]. unfold clickOptionOutcome. rewrite Ho.
    destruct (clickOutcome_fields c opt e) as (K & _ & A & _ & D & _).
    split; [|auto].
    exists (closeDialog d0). rewrite D, Hd0.
    split; [reflexivity | apply closeDialog_closed].
Qed.

Lemma dialog_follows_clicks_witness :
  noteSequenceSelectorDialog
    (exec (Rev1.run demo 2 ClickButton) (after demo 2 [Connect]))
  = Some {| isOpen := true; isModal := true |}
  /\ (let e := after demo 2 [Connect; ClickButton; Disconnect; Connect] in
      let e' := exec (Rev1.run demo 2 ClickButton) e in
      noteSequenceSelectorDialog e'
      = Some {| isOpen := true; isModal := false |}
      /\ reported e' = reported e ++ [InvalidStateError])
  /\ (exists d',
        noteSequenceSelectorDialog
          (exec (Rev1.run demo 2 (ClickOption 0 0))
                (after demo 2 [Connect; ClickButton])) = Some d'
        /\ isOpen d' = false).
Proof.
  destruct (@dialog_follows_clicks demo 2 [Connect] demo_wellFormed (le_n 2))
    as (B & _ & _).
  destruct (@dialog_follows_clicks demo 2
              [Connect; ClickButton; Disconnect; Connect]
              demo_wellFormed (le_n 2)) as (S & _ & _).
  destruct (@dialog_follows_clicks demo 2 [Connect; ClickButton]
              demo_wellFormed (le_n 2)) as (_ & _ & O).
  split; [|split].
  - assert (Hd : noteSequenceSelectorDialog (after demo 2 [Connect])
                 = Some {| isOpen := false; isModal := false |})
      by (vm_compute; reflexivity).
    assert (Hb : bound ButtonClick (after demo 2 [Connect]) <> [])
      by (vm_compute; discriminate).
    assert (Hc : isConnected (after demo 2 [Connect]) = true)
      by (vm_compute; reflexivity).
    destruct (B _ Hd Hb) as (H & _). exact (proj1 (H eq_refl Hc)).
  - intros e e'.
    assert (Hd : noteSequenceSelectorDialog e
                 = Some {| isOpen := true; isModal := false |})
      by (vm_compute; reflexivity).
    assert (Hb : bound ButtonClick e <> []) by (vm_compute; discriminate).
    assert (Hl : length (bound ButtonClick e) = 1)
      by (vm_compute; reflexivity).
    destruct (S _ Hd Hb) as (_ & _ & H). fold e e' in H.
    destruct (H eq_refl eq_refl) as (D & R).
    rewrite Hl in R. split; [exact D | exact R].
  - assert (Ho : optionAt 0 0 (after demo 2 [Connect; ClickButton])
                 = Some (noteSequenceDiv ("ionian", ionian)))
      by (vm_compute; reflexivity).
    destruct (O 0 0 _ Ho) as (D & _). exact D.
Defined.

End Lifecycle.

(** ** Notifications and warnings at the edges *)
Section Edges.
Import Selector Rev1Facts Rev0Facts.

(** X10: in the earlier revision neither a property assignment nor a write or
    removal of the attribute ever dispatches [note-sequence-selected]; the
    selection is updated silently. *)
Theorem rev0_setters_are_silent (c : Catalog) (fuel : nat) (e : Element) :
  2 <= fuel ->
  noteSequenceSelectorButton e <> None ->
  (forall k, completion (Rev0.run c fuel (AssignKey k)) e = Normal tt
             /\ dispatched (exec (Rev0.run c fuel (AssignKey k)) e)
                = dispatched e)
  /\ (forall v, completion (Rev0.run c fuel (HostSetAttribute v)) e = Normal tt
                /\ dispatched (exec (Rev0.run c fuel (HostSetAttribute v)) e)
                   = dispatched e)
  /\ completion (Rev0.run c fuel HostRemoveAttribute) e = Normal tt
  /\ dispatched (exec (Rev0.run c fuel HostRemoveAttribute) e) = dispatched e.
Proof.
  intros Hf Hb. unfold completion, exec. split; [|split].
  - intros k. cbn [Rev0.run].
    destruct (truthy_or_not k) as [(s & -> & Hs)|Hk].
    + rewrite setter_select0 by auto. unfold rev0SelectOutcome.
      destruct (attrEq (attribute e) (Some s)); simpl; auto.
    + rewrite setter_clear0 by (auto; lia). unfold rev0ClearOutcome.
      destruct (attribute e); simpl; auto.
  - intros v. rewrite host_set0 by auto.
    unfold rev0HostSetOutcome, rev0ClearOutcome.
    destruct (attrEq (attribute e) (Some v)); [auto|].
    destruct (v =? ""); simpl; auto.
  - rewrite host_remove0 by (auto; lia).
    destruct (attribute e); simpl; auto.
Qed.

Lemma rev0_setters_are_silent_witness :
  selectedNoteSequenceThemeKey
    (exec (Rev0.run demo 2 (AssignKey (Val "ionian"))) constructed)
  = Val "ionian"
  /\ dispatched (exec (Rev0.run demo 2 (AssignKey (Val "ionian"))) constructed)
     = dispatched constructed.
Proof.
  destruct (@rev0_setters_are_silent demo 2 constructed) as (A & _).
  - lia.
  - discriminate.
  - split; [vm_compute; reflexivity | exact (proj2 (A (Val "ionian")))].
Defined.

(** X11: in the earlier revision every click on an option dispatches exactly
    one event, carrying the key and theme stored after the click, also when
    the option clicked is the one already selected (where the later revision
    dispatches nothing). *)
Theorem rev0_click_always_notifies (c : Catalog) (fuel : nat) (e : Element)
    (g o : nat) (opt : NoteSequenceOption) :
  2 <= fuel ->
  noteSequenceSelectorButton e <> None ->
  noteSequenceSelectorDialog e <> None ->
  optionAt g o e = Some opt ->
  optionKey opt <> "" ->
  let e' := exec (Rev0.run c fuel (ClickOption g o)) e in
  completion (Rev0.run c fuel (ClickOption g o)) e = Normal tt
  /\ selectedNoteSequenceThemeKey e' = Val (optionKey opt)
  /\ dispatched e'
     = dispatched e
       ++ [{| noteSequenceThemeKey := selectedNoteSequenceThemeKey e';
              noteSequenceTheme := selectedNoteSequenceTheme e' |}].
Proof.
  intros Hf Hb Hd Ho Hk e'. subst e'.
  unfold completion, exec. cbn [Rev0.run]. rewrite Ho. unfold listener.
  rewrite click_option0 by auto. cbn [fst snd].
  unfold rev0ClickOutcome. cbv zeta.
  destruct (attrEq (attribute e) (Some (optionKey opt))); simpl; auto.
Qed.

Lemma rev0_click_always_notifies_witness :
  let e := exec (Rev0.run demo 2 (ClickOption 0 1))
                (exec (Rev0.run demo 2 Connect) constructed) in
  dispatched e
  = [{| noteSequenceThemeKey := Val "dorian"; noteSequenceTheme := Val dorian |}]
  /\ dispatched (exec (Rev0.run demo 2 (ClickOption 0 1)) e)
     = dispatched e
       ++ [{| noteSequenceThemeKey := Val "dorian";
              noteSequenceTheme := Val dorian |}].
Proof.
  intros e.
  assert (Hb : noteSequenceSelectorButton e <> None)
    by (vm_compute; discriminate).
  assert (Hd : noteSequenceSelectorDialog e <> None)
    by (vm_compute; discriminate).
  assert (Ho : optionAt 0 1 e = Some (noteSequenceDiv ("dorian", dorian)))
    by (vm_compute; reflexivity).
  assert (Hk : optionKey (noteSequenceDiv ("dorian", dorian)) <> "")
    by discriminate.
  destruct (@rev0_click_always_notifies demo 2 e 0 1 _ (le_n 2) Hb Hd Ho Hk)
    as (_ & _ & D).
  split; [vm_compute; reflexivity|].
  rewrite D. vm_compute. reflexivity.
Defined.

(** X12: the null check of the later revision's dispatch does not hold back
    a key that the catalog lacks.  Writing to the attribute, or assigning to
    the property, a non-empty key that is not a key of the catalog dispatches
    one event whose theme is no record: it is [undefined], or, when the key
    names a member that the catalog object inherits ("constructor",
    "toString", ...), that member. *)
Theorem unknown_key_notifies_undefined (c : Catalog) (fuel : nat)
    (e : Element) (v : string) :
  2 <= fuel ->
  noteSequenceSelectorButton e <> None ->
  v <> "" ->
  lookup v (allNoteSequenceThemes c) = None ->
  attribute e <> Some v ->
  let detail :=
    {| noteSequenceThemeKey := Val v;
       noteSequenceTheme :=
         if inherited v then Val (InheritedMember v) else Undefined |} in
  dispatched (exec (Rev1.run c fuel (HostSetAttribute v)) e)
  = dispatched e ++ [detail]
  /\ dispatched (exec (Rev1.run c fuel (AssignKey (Val v))) e)
     = dispatched e ++ [detail].
Proof.
  intros Hf Hb Hv Hl Ha detail. subst detail. unfold exec.
  assert (Hd : detailOf c v
               = {| noteSequenceThemeKey := Val v;
                    noteSequenceTheme :=
                      if inherited v then Val (InheritedMember v)
                      else Undefined |}).
  { unfold detailOf, themeOf. now rewrite Hl. }
  assert (Hne : attrEq (attribute e) (Some v) = false).
  { destruct (attrEq (attribute e) (Some v)) eqn:E; [|reflexivity].
    apply attrEq_true in E. congruence. }
  rewrite host_set, assign_select by auto. cbn [snd].
  destruct (@hostSetOutcome_fields c v e Ha) as (_ & _ & _ & _ & _ & _ & D1).
  destruct (selectOutcome_fields c v e) as (_ & _ & _ & _ & _ & _ & D2).
  rewrite D1, D2, Hne, (nonempty_eqb Hv), Hd. auto.
Qed.

Lemma unknown_key_notifies_undefined_witness :
  dispatched (exec (Rev1.run demo 2 (HostSetAttribute "lydian")) constructed)
  = [{| noteSequenceThemeKey := Val "lydian"; noteSequenceTheme := Undefined |}]
  /\ dispatched (exec (Rev1.run demo 2 (AssignKey (Val "constructor")))
                      constructed)
     = [{| noteSequenceThemeKey := Val "constructor";
           noteSequenceTheme := Val (InheritedMember "constructor") |}].
Proof.
  split.
  - destruct (@unknown_key_notifies_undefined demo 2 constructed "lydian")
      as (H & _).
    + lia.
    + discriminate.
    + discriminate.
    + reflexivity.
    + discriminate.
    + exact H.
  - destruct (@unknown_key_notifies_undefined demo 2 constructed "constructor")
      as (_ & H).
    + lia.
    + discriminate.
    + discriminate.
    + reflexivity.
    + discriminate.
    + exact H.
Defined.

(** X13: clearing a selection that is reflected in the attribute logs one
    console warning ("attempted to dispatch ... with null data"), whether it
    is cleared by assigning [null] or by removing the attribute; clearing when
    the attribute is absent logs nothing. *)
Theorem clearing_warns (c : Catalog) (fuel : nat) (e : Element) :
  2 <= fuel ->
  noteSequenceSelectorButton e <> None ->
  let warned e' :=
    console e'
    = console e ++ match attribute e with
                   | None => []
                   | Some _ => [nullDataWarning]
                   end in
  warned (exec (Rev1.run c fuel (AssignKey Null)) e)
  /\ warned (exec (Rev1.run c fuel HostRemoveAttribute) e).
Proof.
  intros Hf Hb warned. subst warned. unfold exec.
  rewrite assign_clear, host_remove by (auto; lia). cbn [snd].
  unfold clearOutcome, hostRemoveOutcome.
  destruct (attribute e); simpl; rewrite ?app_nil_r; auto.
Qed.

Lemma clearing_warns_witness :
  let e := exec (Rev1.run demo 2 (AssignKey (Val "ionian"))) constructed in
  console (exec (Rev1.run demo 2 (AssignKey Null)) e) = [nullDataWarning]
  /\ console (exec (Rev1.run demo 2 (AssignKey Null)) constructed) = [].
Proof.
  intros e.
  assert (Hb : noteSequenceSelectorButton e <> None)
    by (vm_compute; discriminate).
  destruct (@clearing_warns demo 2 e (le_n 2) Hb) as (W & _).
  assert (Hb0 : noteSequenceSelectorButton constructed <> None)
    by discriminate.
  destruct (@clearing_warns demo 2 constructed (le_n 2) Hb0) as (W0 & _).
  split.
  - rewrite W. vm_compute. reflexivity.
  - rewrite W0. reflexivity.
Defined.

(** X14: on an empty flattened catalog the random selection reads
    [undefined] from the empty key list and assigns it: nothing is thrown, the
    theme is [null], the attribute is removed, and the stored key is
    [undefined] (or [null] when removing the attribute re-entered the
    setter). *)
Theorem random_on_empty_catalog (c : Catalog) (fuel : nat) (e : Element)
    (random : Q) :
  2 <= fuel ->
  noteSequenceSelectorButton e <> None ->
  allNoteSequenceThemes c = [] ->
  let m := Rev1.run c fuel (CallSetRandom random) in
  completion m e = Normal tt
  /\ selectedNoteSequenceThemeKey (exec m e)
     = match attribute e with None => Undefined | Some _ => Null end
  /\ selectedNoteSequenceTheme (exec m e) = Null
  /\ attribute (exec m e) = None
  /\ dispatched (exec m e) = dispatched e.
Proof.
  intros Hf Hb Hnil m. subst m.
  assert (E : Rev1.run c fuel (CallSetRandom random)
              = Rev1.run c fuel (AssignKey Undefined)).
  { cbn [Rev1.run]. unfold Rev1.setRandomNoteSequence. rewrite Hnil.
    cbn [keys map length]. now destruct (Rev1.randomIndex random 0). }
  rewrite E. unfold completion, exec.
  rewrite assign_clear by (auto; lia). cbn [fst snd].
  destruct (clearOutcome_fields Undefined e) as (K & T & A & _ & _ & _ & D).
  auto.
Qed.

(** A catalog without themes. *)
Lemma random_on_empty_catalog_witness :
  let none := {| noteSequenceThemeGroupsMetadata := [];
                 noteSequenceThemes := [];
                 allNoteSequenceThemes := [] |} in
  selectedNoteSequenceThemeKey
    (exec (Rev1.run none 2 (CallSetRandom (1 # 2))) constructed) = Undefined.
Proof.
  intros none.
  destruct (@random_on_empty_catalog none 2 constructed (1 # 2))
    as (_ & K & _).
  - lia.
  - discriminate.
  - reflexivity.
  - exact K.
Defined.

(** X15: while attached, the toggle has no memory: after two changes of the
    checkbox the panels are as after the second alone, the checkbox shows the
    last value, and the selection is untouched. *)
Theorem toggle_last_wins (e : Element) (first last : bool) :
  toggleMoreInfoCheckbox e <> None ->
  bound CheckboxChange e <> [] ->
  let e2 := exec (changeCheckbox last) (exec (changeCheckbox first) e) in
  noteSequencesContainer e2
  = noteSequencesContainer (exec (changeCheckbox last) e)
  /\ toggleMoreInfoCheckbox e2 = Some last
  /\ selectedNoteSequenceThemeKey e2 = selectedNoteSequenceThemeKey e
  /\ attribute e2 = attribute e
  /\ dispatched e2 = dispatched e.
Proof.
  intros Hx Hl e2. subst e2. unfold exec.
  rewrite (@changeCheckbox_bound e first Hx Hl). cbn [snd].
  rewrite !changeCheckbox_bound by (first [exact Hl | exact Hx | simpl; discriminate]).
  cbn [snd]. simpl. rewrite toggle_container_twice. auto.
Qed.

Lemma toggle_last_wins_witness :
  let e := exec (Rev1.run demo 2 Connect) constructed in
  toggleMoreInfoCheckbox
    (exec (changeCheckbox false) (exec (changeCheckbox true) e)) = Some false.
Proof.
  intros e.
  destruct (@toggle_last_wins e true false) as (_ & X & _).
  - vm_compute. discriminate.
  - vm_compute. discriminate.
  - exact X.
Defined.

End Edges.

(** ** The two revisions side by side, and the node the guard leaves out *)
Section Revisions.
Import Selector Rev1Facts Rev0Facts.

(** The selection as the page can read it. *)
Lemma same_selection_select c s e :
  let e0 := rev0SelectOutcome c s e in
  let e1 := selectOutcome c s e in
  selectedNoteSequenceThemeKey e0 = selectedNoteSequenceThemeKey e1
  /\ selectedNoteSequenceTheme e0 = selectedNoteSequenceTheme e1
  /\ attribute e0 = attribute e1
  /\ noteSequenceSelectorButton e0 = noteSequenceSelectorButton e1.
Proof.
  unfold rev0SelectOutcome, selectOutcome.
  destruct (attrEq (attribute e) (Some s)); simpl; auto.
Qed.

Lemma same_selection_clear k e :
  let e0 := rev0ClearOutcome k e in
  let e1 := clearOutcome k e in
  selectedNoteSequenceThemeKey e0 = selectedNoteSequenceThemeKey e1
  /\ selectedNoteSequenceTheme e0 = selectedNoteSequenceTheme e1
  /\ attribute e0 = attribute e1
  /\ noteSequenceSelectorButton e0 = noteSequenceSelectorButton e1.
Proof.
  unfold rev0ClearOutcome, clearOutcome.
  destruct (attribute e); simpl; auto.
Qed.

(** X16: the two revisions differ only in what they tell the page.  After a
    property assignment, an attribute write or an attribute removal on the
    same element, both store the same key and theme, leave the same attribute
    and show the same label. *)
Theorem revisions_agree_on_selection (c : Catalog) (fuel : nat) (e : Element)
    (op : Op) :
  2 <= fuel ->
  noteSequenceSelectorButton e <> None ->
  (exists k, op = AssignKey k) \/ (exists v, op = HostSetAttribute v)
  \/ op = HostRemoveAttribute ->
  let e0 := exec (Rev0.run c fuel op) e in
  let e1 := exec (Rev1.run c fuel op) e in
  selectedNoteSequenceThemeKey e0 = selectedNoteSequenceThemeKey e1
  /\ selectedNoteSequenceTheme e0 = selectedNoteSequenceTheme e1
  /\ attribute e0 = attribute e1
  /\ noteSequenceSelectorButton e0 = noteSequenceSelectorButton e1.
Proof.
  intros Hf Hb Hop e0 e1. subst e0 e1. unfold exec.
  destruct Hop as [[k ->]|[[v ->]| ->]].
  - cbn [Rev0.run].
    destruct (truthy_or_not k) as [(s & -> & Hs)|Hk].
    + rewrite setter_select0, assign_select by auto.
      apply same_selection_select.
    + rewrite setter_clear0, assign_clear by (auto; lia).
      apply same_selection_clear.
  - rewrite host_set0, host_set by auto. cbn [snd].
    unfold rev0HostSetOutcome, hostSetOutcome.
    destruct (attrEq (attribute e) (Some v)); [auto|].
    destruct (v =? "").
    + destruct (same_selection_clear (Val "") (setAttr (Some "") e))
        as (K & T & A & B).
      unfold clearOutcome in *. simpl in *. auto.
    + simpl. auto.
  - rewrite host_remove0, host_remove by (auto; lia). cbn [snd].
    unfold hostRemoveOutcome. destruct (attribute e); simpl; auto.
Qed.

Lemma revisions_agree_on_selection_witness :
  selectedNoteSequenceTheme
    (exec (Rev0.run demo 2 (HostSetAttribute "dorian")) constructed)
  = selectedNoteSequenceTheme
      (exec (Rev1.run demo 2 (HostSetAttribute "dorian")) constructed).
Proof.
  destruct (@revisions_agree_on_selection demo 2 constructed
              (HostSetAttribute "dorian")) as (_ & T & _).
  - lia.
  - discriminate.
  - right. left. exists "dorian". reflexivity.
  - exact T.
Defined.

(** X17: the guard of [connectedCallback] checks four nodes, not the close
    button.  With those four present and [#close-dialog-button] missing, the
    callback throws a [TypeError] after it bound the trigger's listener:
    neither the other listeners nor the list are set up, and the label and
    attribute are not primed. *)
Theorem missing_close_button_throws (c : Catalog) (cb : Reaction)
    (e : Element) :
  noteSequenceSelectorButton e <> None ->
  noteSequenceSelectorDialog e <> None ->
  noteSequencesContainer e <> None ->
  toggleMoreInfoCheckbox e <> None ->
  closeDialogButton e = false ->
  connectedCallback c cb e
  = (Throw TypeError,
     setListeners (listeners e ++ [(ButtonClick, nextSignal e)])
                  (newAbortController e)).
Proof.
  intros Hb Hd Hg Hx Hc. unfold connectedCallback. cbv zeta.
  cbn [noteSequenceSelectorButton noteSequenceSelectorDialog
         noteSequencesContainer toggleMoreInfoCheckbox closeDialogButton
         newAbortController].
  destruct (noteSequenceSelectorButton e); [|congruence].
  destruct (noteSequenceSelectorDialog e); [|congruence].
  destruct (noteSequencesContainer e); [|congruence].
  destruct (toggleMoreInfoCheckbox e); [|congruence].
  rewrite Hc. reflexivity.
Qed.

End Revisions.

Lemma missing_close_button_throws_witness :
  completion (Selector.connectedCallback demo
                (Rev1.attributeChangedCallback demo 2)) withoutCloseButton
  = Throw TypeError
  /\ listeners (exec (Selector.connectedCallback demo
                        (Rev1.attributeChangedCallback demo 2))
                     withoutCloseButton)
     = [(ButtonClick, 0)].
Proof.
  unfold completion, exec.
  rewrite (@missing_close_button_throws demo
             (Rev1.attributeChangedCallback demo 2) withoutCloseButton)
    by (try discriminate; reflexivity).
  split; reflexivity.
Defined.
